(** * The Qdrant report aggregator ([docs/qdrant/qdrant_analysis.py])

    A shallow embedding of [main]: the aggregation loop over the loaded
    points, the statistics it calls, and the report it prints, followed by
    the properties of the aggregator stated in the specification.

    Conventions of the embedding.
    - JSON values are the values [json.load] produces.  Numbers are kept
      exact: a Python [int] is a [Z], a Python [float] is the rational it
      denotes ([Qc]); NaN and the infinities, which strict JSON cannot
      express, are outside the model.  Comparisons between numbers are exact
      in Python, so they are exact here; a quotient or a mean is the exact
      rational, before the rounding of floating-point arithmetic.
    - A [dict] is an association list in insertion order, a [set] is a list
      without two equal keys whose iteration order is left open, a
      [defaultdict(int)] is an association list of counts.
    - A Python exception ends the run: fallible steps live in [result]; the
      report lives in [io], which also records what has been printed and
      which statistics and divisions have been evaluated so far.
    - The rendering of a float to text ([:.1f], [:.2f]) and [repr] are
      parameters of the report. *)

From Stdlib Require Import QArith Qcanon Lqa.
From stdpp Require Import base list strings numbers sorting pretty.

Local Open Scope Qc_scope.
Local Open Scope nat_scope.

(** ** JSON values *)

#[local] Set Warnings "-register-all".

Inductive json : Type :=
| JNull
| JBool (b : bool)
| JInt (z : Z)
| JFloat (q : Qc)
| JStr (s : string)
| JList (l : list json)
| JObj (kvs : list (string * json)).

(** ** Exceptions *)

Inductive exn : Type :=
| AttributeError
| TypeError
| KeyError
| ValueError
| ZeroDivisionError
| StatisticsError.

Inductive result (A : Type) : Type :=
| Ok (a : A)
| Raise (e : exn).
Arguments Ok {A} a.
Arguments Raise {A} e.

#[global] Instance result_ret : MRet result := λ A a, Ok a.
#[global] Instance result_bind : MBind result := λ A B f m,
  match m with
  | Ok a => f a
  | Raise e => Raise e
  end.

Definition is_ok {A} (r : result A) : bool :=
  match r with Ok _ => true | Raise _ => false end.

(** [for x in l: s = body(s, x)] with an exception leaving the loop. *)
Fixpoint for_each {A S : Type} (body : S → A → result S) (s : S) (l : list A)
  : result S :=
  match l with
  | [] => Ok s
  | x :: l' => s' ← body s x; for_each body s' l'
  end.

(** ** Python primitives on JSON values *)

Definition dict : Type := list (string * json).

Fixpoint dict_get (k : string) (d : dict) : option json :=
  match d with
  | [] => None
  | (k', v) :: d' => if String.eqb k' k then Some v else dict_get k d'
  end.

(** [k in d] for a dict [d]. *)
Definition dict_has (k : string) (d : dict) : bool :=
  match dict_get k d with Some _ => true | None => false end.

(** [sub in s] for two strings. *)
Definition str_contains (sub s : string) : bool :=
  match String.index 0 sub s with Some _ => true | None => false end.

Definition is_str (k : string) (v : json) : bool :=
  match v with JStr s => String.eqb s k | _ => false end.

(** [k in c] for a string [k]: key test on a dict, element test on a list,
    substring test on a string, [TypeError] on anything else. *)
Definition py_contains (k : string) (c : json) : result bool :=
  match c with
  | JObj kvs => Ok (dict_has k kvs)
  | JList l => Ok (existsb (is_str k) l)
  | JStr s => Ok (str_contains k s)
  | _ => Raise TypeError
  end.

(** [c[k]] for a string [k]. *)
Definition py_getitem (c : json) (k : string) : result json :=
  match c with
  | JObj kvs =>
      match dict_get k kvs with Some v => Ok v | None => Raise KeyError end
  | _ => Raise TypeError
  end.

(** [len(v)]. *)
Definition py_len (v : json) : result nat :=
  match v with
  | JList l => Ok (length l)
  | JStr s => Ok (String.length s)
  | JObj kvs => Ok (length kvs)
  | _ => Raise TypeError
  end.

(** [v[:5]]; slicing a dict raises. *)
Definition py_slice5 (v : json) : result json :=
  match v with
  | JList l => Ok (JList (take 5 l))
  | JStr s => Ok (JStr (String.substring 0 5 s))
  | _ => Raise TypeError
  end.

(** Truth value of an object, as [if x:] tests it. *)
Definition py_truthy (v : json) : bool :=
  match v with
  | JNull => false
  | JBool b => b
  | JInt z => negb (Z.eqb z 0)
  | JFloat q => negb (Qeq_bool q 0)
  | JStr s => negb (String.eqb s EmptyString)
  | JList l => match l with [] => false | _ => true end
  | JObj kvs => match kvs with [] => false | _ => true end
  end.

(** [point.get('payload', {})] followed by the first use of the payload as
    a dict ([payload.keys()]): both need a dict. *)
Definition get_payload (point : json) : result dict :=
  match point with
  | JObj kvs =>
      match dict_get "payload" kvs with
      | None => Ok []
      | Some (JObj payload) => Ok payload
      | Some _ => Raise AttributeError
      end
  | _ => Raise AttributeError
  end.

(** ** Hashable values, sets and counters *)

(** The JSON values that can be a member of a set or a key of a dict. *)
Inductive hashable : Type :=
| HNone
| HBool (b : bool)
| HInt (z : Z)
| HFloat (q : Qc)
| HStr (s : string).

Definition py_hash (v : json) : result hashable :=
  match v with
  | JNull => Ok HNone
  | JBool b => Ok (HBool b)
  | JInt z => Ok (HInt z)
  | JFloat q => Ok (HFloat q)
  | JStr s => Ok (HStr s)
  | JList _ | JObj _ => Raise TypeError
  end.

Definition to_json (h : hashable) : json :=
  match h with
  | HNone => JNull
  | HBool b => JBool b
  | HInt z => JInt z
  | HFloat q => JFloat q
  | HStr s => JStr s
  end.

(** Python's [==] on hashable values identifies [True], [1] and [1.0]:
    two values are the same member when they have the same key. *)
Inductive hkey : Type :=
| KNone
| KNum (q : Qc)
| KStr (s : string).

#[global] Instance hkey_eq_dec : EqDecision hkey.
Proof. solve_decision. Defined.

Definition key_of (h : hashable) : hkey :=
  match h with
  | HNone => KNone
  | HBool b => KNum (if b then Qc_of_Z 1 else Qc_of_Z 0)
  | HInt z => KNum (Qc_of_Z z)
  | HFloat q => KNum q
  | HStr s => KStr s
  end.

Definition py_eqb (a b : hashable) : bool := bool_decide (key_of a = key_of b).

(** A set keeps the first member inserted for each key. *)
Definition pyset : Type := list hashable.

Definition set_mem (h : hashable) (s : pyset) : bool := existsb (py_eqb h) s.

Definition set_add (h : hashable) (s : pyset) : pyset :=
  if set_mem h s then s else s ++ [h].

(** A [defaultdict(int)]: [d[k] += 1]. *)
Definition counter : Type := list (hashable * nat).

Fixpoint incr (h : hashable) (d : counter) : counter :=
  match d with
  | [] => [(h, 1)]
  | (k, c) :: d' => if py_eqb k h then (k, S c) :: d' else (k, c) :: incr h d'
  end.

(** ** The aggregation loop (lines 24-76) *)

Record aggregate : Type := {
  files_unique : pyset;
  categories_dist : counter;
  intelligence_types : counter;
  convergence_chains : list nat;
  enrichment_levels : counter;
  convergence_scores : list json;
  payload_fields : pyset
}.

Definition empty_aggregate : aggregate :=
  {| files_unique := []; categories_dist := []; intelligence_types := [];
     convergence_chains := []; enrichment_levels := [];
     convergence_scores := []; payload_fields := [] |}.

(** Lines 39-40. *)
Definition catalog_fields (payload : dict) (fields : pyset) : pyset :=
  foldl (λ s kv, set_add (HStr kv.1) s) fields payload.

(** Lines 43-46. *)
Definition extract_file (payload : dict) (files : pyset) : result pyset :=
  match dict_get "sourceFile" payload with
  | Some v => h ← py_hash v; Ok (set_add h files)
  | None =>
      match dict_get "file" payload with
      | Some v => h ← py_hash v; Ok (set_add h files)
      | None => Ok files
      end
  end.

Definition count_value (d : counter) (v : json) : result counter :=
  h ← py_hash v; Ok (incr h d).

(** Lines 49-54. *)
Definition count_categories (payload : dict) (d : counter) : result counter :=
  match dict_get "categories" payload with
  | Some (JList cats) => for_each count_value d cats
  | Some v => count_value d v
  | None => Ok d
  end.

(** Lines 57-60 and 73-76: the first spelling wins. *)
Definition count_field (k1 k2 : string) (payload : dict) (d : counter)
  : result counter :=
  match dict_get k1 payload with
  | Some v => count_value d v
  | None =>
      match dict_get k2 payload with
      | Some v => count_value d v
      | None => Ok d
      end
  end.

(** Lines 67-70, for one chain. *)
Definition record_chain (acc : list nat * list json) (chain : json)
  : result (list nat * list json) :=
  has_p ← py_contains "participants" chain;
  sizes ← (if has_p : bool
           then p ← py_getitem chain "participants";
                n ← py_len p;
                Ok (acc.1 ++ [n])
           else Ok acc.1);
  has_s ← py_contains "convergenceScore" chain;
  scores ← (if has_s : bool
            then v ← py_getitem chain "convergenceScore";
                 Ok (acc.2 ++ [v])
            else Ok acc.2);
  Ok (sizes, scores).

(** Lines 63-70. *)
Definition extract_chains (payload : dict) (acc : list nat * list json)
  : result (list nat * list json) :=
  match dict_get "convergenceChains" payload with
  | Some (JList chains) => for_each record_chain acc chains
  | _ => Ok acc
  end.

(** The body of [for point in all_points] (lines 36-76). *)
Definition process_point (a : aggregate) (point : json) : result aggregate :=
  payload ← get_payload point;
  let fields := catalog_fields payload (payload_fields a) in
  files ← extract_file payload (files_unique a);
  cats ← count_categories payload (categories_dist a);
  intel ← count_field "intelligence_type" "intelligenceType" payload
            (intelligence_types a);
  cs ← extract_chains payload (convergence_chains a, convergence_scores a);
  enrich ← count_field "enrichment_level" "enrichmentLevel" payload
             (enrichment_levels a);
  Ok {| files_unique := files; categories_dist := cats;
        intelligence_types := intel; convergence_chains := cs.1;
        enrichment_levels := enrich; convergence_scores := cs.2;
        payload_fields := fields |}.

Definition aggregate_points (all_points : list json) : result aggregate :=
  for_each process_point empty_aggregate all_points.

(** Lines 17-21: the point lists of [qdrant_batch_1.json] to
    [qdrant_batch_4.json], concatenated in that order.  [batches n] is the
    list found under [result.points] in file number [n]. *)
Definition load_points (batches : nat → list json) : list json :=
  flat_map batches (seq 1 4).

(** ** Ordering: [sorted] and the sorts by key *)

(** [a < b]: numbers compare by value, strings lexicographically; [None],
    and a number against a string, raise [TypeError]. *)
Definition py_lt (a b : hashable) : result bool :=
  match key_of a, key_of b with
  | KNum x, KNum y => Ok (bool_decide (x < y)%Qc)
  | KStr s, KStr t => Ok (String.ltb s t)
  | _, _ => Raise TypeError
  end.

(** [sorted(l)]: a stable sort that only uses [<]. *)
Fixpoint sorted_insert (x : hashable) (l : list hashable)
  : result (list hashable) :=
  match l with
  | [] => Ok [x]
  | y :: l' =>
      lt ← py_lt y x;
      if lt : bool then r ← sorted_insert x l'; Ok (y :: r) else Ok (x :: l)
  end.

Fixpoint py_sorted (l : list hashable) : result (list hashable) :=
  match l with
  | [] => Ok []
  | x :: l' => r ← py_sorted l'; sorted_insert x r
  end.

(** A stable sort: [before y x] holds when [y] has to come strictly before
    [x].  Each element, taken from the right, is put in front of the first
    element that does not have to come before it, so that elements the
    order does not separate keep the order of the input. *)
Fixpoint insert_sorted {A} (before : A → A → bool) (x : A) (l : list A)
  : list A :=
  match l with
  | [] => [x]
  | y :: l' => if before y x then y :: insert_sorted before x l' else x :: l
  end.

Definition sorted_with {A} (before : A → A → bool) (l : list A) : list A :=
  foldr (insert_sorted before) [] l.

(** [sorted(d.items(), key=lambda x: x[1], reverse=True)]: by count,
    largest first, equal counts in insertion order. *)
Definition sorted_by_count (d : counter) : counter :=
  sorted_with (λ y x, x.2 <? y.2) d.

(** [Counter(l)] for a list of ints, and [sorted(c.items())]. *)
Fixpoint tally (n : nat) (c : list (nat * nat)) : list (nat * nat) :=
  match c with
  | [] => [(n, 1)]
  | (k, m) :: c' => if k =? n then (k, S m) :: c' else (k, m) :: tally n c'
  end.

Definition Counter (l : list nat) : list (nat * nat) :=
  foldl (λ c n, tally n c) [] l.

(** [a < b] on tuples of two ints. *)
Definition pair_ltb (a b : nat * nat) : bool :=
  (a.1 <? b.1) || ((a.1 =? b.1) && (a.2 <? b.2)).

Definition sorted_items (c : list (nat * nat)) : list (nat * nat) :=
  sorted_with pair_ltb c.

(** ** Statistics *)

Definition Qc_of_nat (n : nat) : Qc := Qc_of_Z (Z.of_nat n).

(** The value of a number; [statistics.mean] raises [TypeError] on data
    that holds anything else. *)
Definition number (v : json) : result Qc :=
  match v with
  | JBool b => Ok (if b then Qc_of_Z 1 else Qc_of_Z 0)
  | JInt z => Ok (Qc_of_Z z)
  | JFloat q => Ok q
  | _ => Raise TypeError
  end.

Fixpoint numbers (data : list json) : result (list Qc) :=
  match data with
  | [] => Ok []
  | v :: data' => x ← number v; xs ← numbers data'; Ok (x :: xs)
  end.

Definition total (data : list Qc) : Qc := foldr Qcplus (Qc_of_Z 0) data.

(** [statistics.mean]. *)
Definition mean (data : list Qc) : result Qc :=
  match data with
  | [] => Raise StatisticsError
  | _ => Ok (total data / Qc_of_nat (length data))%Qc
  end.

Definition sorted_nums (data : list Qc) : list Qc :=
  sorted_with (λ y x, bool_decide (y < x)%Qc) data.

(** [statistics.median]: the middle value, or the mean of the two middle
    values. *)
Definition median (data : list Qc) : result Qc :=
  let s := sorted_nums data in
  let n := length s in
  if n =? 0 then Raise StatisticsError
  else if Nat.odd n then Ok (nth (n / 2) s (Qc_of_Z 0))
  else Ok ((nth (n / 2 - 1) s (Qc_of_Z 0) + nth (n / 2) s (Qc_of_Z 0))
           / Qc_of_Z 2)%Qc.

Definition Qc_max (x y : Qc) : Qc := if bool_decide (x < y)%Qc then y else x.
Definition Qc_min (x y : Qc) : Qc := if bool_decide (y < x)%Qc then y else x.

(** [max] and [min]. *)
Definition py_max (data : list Qc) : result Qc :=
  match data with
  | [] => Raise ValueError
  | x :: data' => Ok (foldl Qc_max x data')
  end.

Definition py_min (data : list Qc) : result Qc :=
  match data with
  | [] => Raise ValueError
  | x :: data' => Ok (foldl Qc_min x data')
  end.

Definition max_int (data : list nat) : result nat :=
  match data with
  | [] => Raise ValueError
  | x :: data' => Ok (foldl Nat.max x data')
  end.

Definition min_int (data : list nat) : result nat :=
  match data with
  | [] => Raise ValueError
  | x :: data' => Ok (foldl Nat.min x data')
  end.

(** The sample variance; [statistics.stdev] is its square root and needs
    two data points. *)
Definition variance (data : list Qc) : result Qc :=
  if length data <? 2 then Raise StatisticsError
  else
    let m := (total data / Qc_of_nat (length data))%Qc in
    Ok (total ((λ x, (x - m) * (x - m))%Qc <$> data)
        / Qc_of_nat (length data - 1))%Qc.

(** Lines 158-164: the five score ranges, in the order of the dict. *)
Definition score_ranges (scores : list Qc) : list (string * list Qc) :=
  [ ("0-5", filter (λ s, Qc_of_Z 0 ≤ s ∧ s < Qc_of_Z 5)%Qc scores);
    ("5-10", filter (λ s, Qc_of_Z 5 ≤ s ∧ s < Qc_of_Z 10)%Qc scores);
    ("10-15", filter (λ s, Qc_of_Z 10 ≤ s ∧ s < Qc_of_Z 15)%Qc scores);
    ("15-20", filter (λ s, Qc_of_Z 15 ≤ s ∧ s < Qc_of_Z 20)%Qc scores);
    ("20+", filter (λ s, Qc_of_Z 20 ≤ s)%Qc scores) ].

(** Lines 184-187: [sum(1 for p in all_points if k in p.get('payload', {}))]
    for one of the keys [keys]. *)
Definition count_points (keys : list string) (all_points : list json)
  : result nat :=
  for_each
    (λ n p, payload ← get_payload p;
            Ok (if existsb (λ k, dict_has k payload) keys then S n else n))
    0 all_points.

(** ** The report *)

Inductive stat_fn : Type :=
| Mean | Median | Max | Min | Stdev | SizeDistribution.

(** What a run does, in order: the lines it prints, the statistics it
    evaluates (with the number of data points) and the divisions by the
    number of points. *)
Inductive event : Type :=
| Print (line : string)
| Stat (f : stat_fn) (n : nat)
| Divide (count n : nat).

Definition io (A : Type) : Type := list event * result A.

#[global] Instance io_ret : MRet io := λ A a, ([], Ok a).
#[global] Instance io_bind : MBind io := λ A B f m,
  match m with
  | (out, Ok a) => let (out', r) := f a in (out ++ out', r)
  | (out, Raise e) => (out, Raise e)
  end.

Definition print (line : string) : io unit := ([Print line], Ok ()).
Definition note (e : event) : io unit := ([e], Ok ()).
Definition lift {A} (r : result A) : io A := ([], r).
Definition skip : io unit := ([], Ok ()).

Fixpoint for_io {A} (body : A → io unit) (l : list A) : io unit :=
  match l with
  | [] => skip
  | x :: l' => body x;; for_io body l'
  end.

(** The lines written to standard output. *)
Definition stdout {A} (m : io A) : list string :=
  omap (λ e, match e with Print s => Some s | _ => None end) m.1.

Definition raised {A} (m : io A) : option exn :=
  match m.2 with Ok _ => None | Raise e => Some e end.

Definition statistics_mean (data : list Qc) : io Qc :=
  note (Stat Mean (length data));; lift (mean data).
Definition statistics_median (data : list Qc) : io Qc :=
  note (Stat Median (length data));; lift (median data).
Definition statistics_stdev (data : list Qc) : io Qc :=
  note (Stat Stdev (length data));; lift (variance data).

(** [count / len(all_points) * 100]. *)
Definition percentage (count n : nat) : io Qc :=
  note (Divide count n);;
  if n =? 0 then lift (Raise ZeroDivisionError)
  else mret (Qc_of_nat count / Qc_of_nat n * Qc_of_Z 100)%Qc.

(** [{i:2d}]. *)
Definition fmt_2d (i : nat) : string :=
  if i <? 10 then " " +:+ pretty i else pretty i.

Definition dq : string := String (Ascii.ascii_of_nat 34) EmptyString.

Section Report.

(** [repr] of a value, the renderings [:.1f] and [:.2f] of a number, the
    rendering [:.2f] of the square root of a number, and the order in
    which [list(s)] enumerates a set. *)
Variable py_repr : json → string.
Variable fmt_1f fmt_2f fmt_sqrt_2f : Qc → string.
Variable set_iter : pyset → list hashable.

(** [str(v)], as an f-string interpolates it. *)
Definition py_str (v : json) : string :=
  match v with
  | JStr s => s
  | _ => py_repr v
  end.

(** Lines 79-85. *)
Definition status_section (all_points : list json) : io unit :=
  print "## Connection Status";;
  print "- Server: http://qdr.vcia.com.br:6333 [OK]";;
  print "- Collection: knowledge_consolidator [OK]";;
  print ("- Total points analyzed: " +:+ pretty (length all_points));;
  print "- Vector dimensions: 768 (nomic-embed-text)";;
  print "- Collection status: Green";;
  print EmptyString.

(** Lines 87-91. *)
Definition overview_section (a : aggregate) : io unit :=
  print "## Data Overview";;
  print ("- Unique files processed: " +:+ pretty (length (files_unique a)));;
  print ("- Payload fields available: "
         +:+ pretty (length (payload_fields a)));;
  catalog ← lift (py_sorted (set_iter (payload_fields a)));
  print ("- Field catalog: " +:+ py_repr (JList (to_json <$> catalog)));;
  print EmptyString.

(** Lines 100-106. *)
Definition sample_chain (sample_payload : dict) : io unit :=
  match dict_get "convergenceChains" sample_payload with
  | Some (JList (first_chain :: _)) =>
      has_p ← lift (py_contains "participants" first_chain);
      if has_p : bool then
        p ← lift (py_getitem first_chain "participants");
        n ← lift (py_len p);
        print ("- Sample Chain Size: " +:+ pretty n +:+ " participants");;
        first5 ← lift (py_slice5 p);
        print ("- First 5 Participants: " +:+ py_str first5)
      else skip
  | _ => skip
  end.

(** Lines 93-107. *)
Definition sample_section (sample_point : option json) : io unit :=
  print "## Sample Point Analysis";;
  match sample_point with
  | Some point =>
      if py_truthy point then
        ident ← lift (py_getitem point "id");
        print ("- Sample Point ID: " +:+ py_str ident);;
        sample_payload ← lift (get_payload point);
        print ("- Sample Payload Keys: "
               +:+ py_repr (JList ((λ kv, JStr kv.1) <$> sample_payload)));;
        match dict_get "sourceFile" sample_payload with
        | Some f => print ("- Sample File: " +:+ py_str f)
        | None => skip
        end;;
        sample_chain sample_payload
      else skip
  | None => skip
  end;;
  print EmptyString.

(** Lines 109-115. *)
Definition files_section (a : aggregate) : io unit :=
  print ("## Unique Files Mapped ("
         +:+ pretty (length (files_unique a)) +:+ " total):");;
  file_list ← lift (py_sorted (set_iter (files_unique a)));
  for_io (λ f, print (fmt_2d f.1 +:+ ". " +:+ py_str (to_json f.2)))
         (imap (λ i f, (S i, f)) (take 25 file_list));;
  (if 25 <? length file_list
   then print ("... and " +:+ pretty (length file_list - 25)
               +:+ " more files")
   else skip);;
  print EmptyString.

(** One line of a distribution (lines 120-121, 127-128, 177-178). *)
Definition distribution_line (n : nat) (item : hashable * nat) : io unit :=
  pct ← percentage item.2 n;
  print ("- " +:+ py_str (to_json item.1) +:+ ": " +:+ pretty item.2
         +:+ " points (" +:+ fmt_1f pct +:+ "%)").

(** Lines 117-122. *)
Definition categories_section (a : aggregate) (n : nat) : io unit :=
  print "## Categories Distribution:";;
  for_io (distribution_line n) (sorted_by_count (categories_dist a));;
  print EmptyString.

(** Lines 124-129. *)
Definition intelligence_section (a : aggregate) (n : nat) : io unit :=
  print "## Intelligence Types Analysis:";;
  for_io (distribution_line n) (sorted_by_count (intelligence_types a));;
  print EmptyString.

(** Lines 131-146. *)
Definition chain_section (chains : list nat) : io unit :=
  print "## Convergence Chain Analysis:";;
  match chains with
  | [] => print "- No convergence chains data found"
  | _ :: _ =>
      print ("- Total chains analyzed: " +:+ pretty (length chains));;
      avg ← statistics_mean (Qc_of_nat <$> chains);
      print ("- Average participants per chain: " +:+ fmt_1f avg);;
      med ← statistics_median (Qc_of_nat <$> chains);
      print ("- Median participants per chain: " +:+ fmt_1f med);;
      note (Stat Max (length chains));;
      hi ← lift (max_int chains);
      print ("- Max participants in chain: " +:+ pretty hi);;
      note (Stat Min (length chains));;
      lo ← lift (min_int chains);
      print ("- Min participants in chain: " +:+ pretty lo);;
      note (Stat SizeDistribution (length chains));;
      print "- Chain size distribution:";;
      for_io (λ item, print ("  * " +:+ pretty item.1 +:+ " participants: "
                             +:+ pretty item.2 +:+ " chains"))
             (sorted_items (Counter chains))
  end;;
  print EmptyString.

(** Lines 166-168, for one range. *)
Definition range_line (range : string * list Qc) : io unit :=
  match range.2 with
  | [] => skip
  | _ :: _ =>
      avg ← statistics_mean range.2;
      print ("  * " +:+ range.1 +:+ ": " +:+ pretty (length range.2)
             +:+ " scores (avg: " +:+ fmt_2f avg +:+ ")")
  end.

(** Lines 148-171.  [statistics.mean] (line 151) is the first to look at
    the elements and raises [TypeError] unless each is a number; from
    there on the section works on their values. *)
Definition score_section (scores : list json) : io unit :=
  print "## Convergence Scores Analysis:";;
  match scores with
  | [] => print "- No convergence scores data found"
  | _ :: _ =>
      print ("- Total scores recorded: " +:+ pretty (length scores));;
      xs ← lift (numbers scores);
      avg ← statistics_mean xs;
      print ("- Average convergence score: " +:+ fmt_2f avg);;
      med ← statistics_median xs;
      print ("- Median convergence score: " +:+ fmt_2f med);;
      note (Stat Max (length xs));;
      hi ← lift (py_max xs);
      print ("- Max convergence score: " +:+ fmt_2f hi);;
      note (Stat Min (length xs));;
      lo ← lift (py_min xs);
      print ("- Min convergence score: " +:+ fmt_2f lo);;
      var ← statistics_stdev xs;
      print ("- Standard deviation: " +:+ fmt_sqrt_2f var);;
      print "- Score distribution by ranges:";;
      for_io range_line (score_ranges xs)
  end;;
  print EmptyString.

(** Lines 173-181. *)
Definition enrichment_section (a : aggregate) (n : nat) : io unit :=
  print "## Enrichment Levels Analysis:";;
  match enrichment_levels a with
  | [] => print "- No enrichment levels data found"
  | _ :: _ =>
      for_io (distribution_line n) (sorted_by_count (enrichment_levels a))
  end;;
  print EmptyString.

(** One line of lines 189-192. *)
Definition quality_line (label : string) (count n : nat) : io unit :=
  pct ← percentage count n;
  print (label +:+ pretty count +:+ "/" +:+ pretty n
         +:+ " (" +:+ fmt_1f pct +:+ "%)").

(** Lines 183-193. *)
Definition quality_section (all_points : list json) : io unit :=
  print "## Data Quality Assessment:";;
  points_with_files ← lift (count_points ["sourceFile"; "file"] all_points);
  points_with_categories ← lift (count_points ["categories"] all_points);
  points_with_intelligence ←
    lift (count_points ["intelligence_type"; "intelligenceType"] all_points);
  points_with_chains ← lift (count_points ["convergenceChains"] all_points);
  quality_line "- Points with file information: "
               points_with_files (length all_points);;
  quality_line "- Points with categories: "
               points_with_categories (length all_points);;
  quality_line "- Points with intelligence type: "
               points_with_intelligence (length all_points);;
  quality_line "- Points with convergence chains: "
               points_with_chains (length all_points);;
  print EmptyString.

(** Lines 195-203. *)
Definition insights_section (a : aggregate) : io unit :=
  print "## Key Insights & Recommendations:";;
  print "1. Data completeness: All 351 points successfully retrieved";;
  print ("2. File diversity: " +:+ pretty (length (files_unique a))
         +:+ " unique files processed by Intelligence Enrichment Pipeline");;
  match convergence_scores a with
  | [] => skip
  | _ :: _ =>
      xs ← lift (numbers (convergence_scores a));
      avg ← statistics_mean xs;
      print ("3. Convergence quality: Average score of " +:+ fmt_2f avg
             +:+ " indicates good semantic relationships")
  end;;
  match categories_dist a with
  | [] => skip
  | _ :: _ =>
      print ("4. Categorization: " +:+ pretty (length (categories_dist a))
             +:+ " distinct categories show good knowledge organization")
  end;;
  print ("5. Vector quality: 768-dimensional embeddings provide rich "
         +:+ "semantic representation");;
  print EmptyString.

(** Lines 205-217. *)
Definition curl_section : io unit :=
  print "## CURL Commands for Verification:";;
  print "# Collection info:";;
  print ("curl -s " +:+ dq
         +:+ "http://qdr.vcia.com.br:6333/collections/knowledge_consolidator"
         +:+ dq +:+ " | python -m json.tool");;
  print EmptyString;;
  print "# Search by similarity (example):";;
  print ("curl -s -X POST " +:+ dq
         +:+ "http://qdr.vcia.com.br:6333/collections/knowledge_consolidator"
         +:+ "/points/search" +:+ dq +:+ " \");;
  print ("  -H " +:+ dq +:+ "Content-Type: application/json" +:+ dq
         +:+ " \");;
  print ("  -d '{" +:+ dq +:+ "vector" +:+ dq +:+ ": [0.1]*768, "
         +:+ dq +:+ "limit" +:+ dq +:+ ": 5, "
         +:+ dq +:+ "with_payload" +:+ dq +:+ ": true}'");;
  print EmptyString;;
  print "# Scroll all points:";;
  print ("curl -s -X POST " +:+ dq
         +:+ "http://qdr.vcia.com.br:6333/collections/knowledge_consolidator"
         +:+ "/points/scroll" +:+ dq +:+ " \");;
  print ("  -H " +:+ dq +:+ "Content-Type: application/json" +:+ dq
         +:+ " \");;
  print ("  -d '{" +:+ dq +:+ "limit" +:+ dq +:+ ": 100, "
         +:+ dq +:+ "with_payload" +:+ dq +:+ ": true, "
         +:+ dq +:+ "with_vector" +:+ dq +:+ ": false}'").

(** The report of lines 78-217, for the points and their aggregate. *)
Definition report (all_points : list json) (a : aggregate) : io unit :=
  status_section all_points;;
  overview_section a;;
  sample_section (head all_points);;
  files_section a;;
  categories_section a (length all_points);;
  intelligence_section a (length all_points);;
  chain_section (convergence_chains a);;
  score_section (convergence_scores a);;
  enrichment_section a (length all_points);;
  quality_section all_points;;
  insights_section a;;
  curl_section.

(** [main]. *)
Definition main (batches : nat → list json) : io unit :=
  print "=== QDRANT KNOWLEDGE CONSOLIDATOR ANALYSIS ===";;
  print EmptyString;;
  a ← lift (aggregate_points (load_points batches));
  report (load_points batches) a.

End Report.

(** * Properties *)

(** ** The [result] and [io] monads *)

Lemma bind_Ok {A B} (m : result A) (f : A → result B) b :
  m ≫= f = Ok b ↔ ∃ a, m = Ok a ∧ f a = Ok b.
Proof.
  destruct m as [a|e]; simpl; split.
  - intros H. by exists a.
  - by intros (a' & [= <-] & H).
  - done.
  - by intros (a' & [=] & _).
Qed.

Lemma io_bind_Ok {A B} (out : list event) (a : A) (f : A → io B) :
  (out, Ok a) ≫= f = (out ++ (f a).1, (f a).2).
Proof. unfold mbind, io_bind. by destruct (f a). Qed.

Lemma io_bind_Raise {A B} (out : list event) e (f : A → io B) :
  (out, Raise e) ≫= f = (out, Raise e).
Proof. done. Qed.

Lemma io_bind_out {A B} (m : io A) (f : A → io B) :
  ∃ rest, (m ≫= f).1 = m.1 ++ rest.
Proof.
  destruct m as [out [a|e]].
  - rewrite io_bind_Ok. by eexists.
  - rewrite io_bind_Raise. exists []. by rewrite app_nil_r.
Qed.

Lemma stdout_app {A B} (m : io A) (m' : io B) out :
  m'.1 = m.1 ++ out →
  stdout m' = stdout m ++ omap (λ e, match e with Print s => Some s | _ => None end) out.
Proof. unfold stdout. intros ->. by rewrite omap_app. Qed.

Lemma print_bind {A} (line : string) (m : io A) :
  (print line;; m) = (Print line :: m.1, m.2).
Proof. unfold print. by rewrite io_bind_Ok. Qed.

Lemma stdout_print_bind {A} (line : string) (m : io A) :
  stdout (print line;; m) = line :: stdout m.
Proof. by rewrite print_bind. Qed.

(** A set enumerated in any order is still the same list when it has at
    most one member. *)
Lemma set_iter_nil (set_iter : pyset → list hashable) :
  (∀ s, set_iter s ≡ₚ s) → set_iter [] = [].
Proof. intros H. by apply Permutation_nil_r. Qed.

Lemma set_iter_singleton (set_iter : pyset → list hashable) h :
  (∀ s, set_iter s ≡ₚ s) → set_iter [h] = [h].
Proof. intros H. by apply Permutation_singleton_r. Qed.

(** ** Empty input (C2) *)

Definition no_points : nat → list json := λ _, [].

(** C2 (the code breaks the claim).  With no point loaded the run reaches
    the data quality assessment, divides zero by the zero total and ends
    there with [ZeroDivisionError]: the division by the number of points is
    not guarded. *)
Theorem empty_input_divides_by_zero
    (py_repr : json → string) (fmt_1f fmt_2f fmt_sqrt_2f : Qc → string)
    (set_iter : pyset → list hashable) :
  (∀ s, set_iter s ≡ₚ s) →
  let run := main py_repr fmt_1f fmt_2f fmt_sqrt_2f set_iter no_points in
  load_points no_points = []
  ∧ run.2 = Raise ZeroDivisionError
  ∧ last run.1 = Some (Divide 0 0)
  ∧ last (stdout run) = Some "## Data Quality Assessment:".
Proof.
  intros H run. pose proof (set_iter_nil _ H) as Hnil.
  split; [done|]. subst run.
  split; [|split]; vm_compute; rewrite Hnil; reflexivity.
Qed.

Lemma empty_input_divides_by_zero_witness :
  let run := main (λ _, "?") (λ _, "?") (λ _, "?") (λ _, "?") id no_points in
  load_points no_points = []
  ∧ run.2 = Raise ZeroDivisionError
  ∧ last run.1 = Some (Divide 0 0)
  ∧ last (stdout run) = Some "## Data Quality Assessment:".
Proof. apply empty_input_divides_by_zero. intros s. reflexivity. Defined.

(** ** A single score (C3) *)

Definition single_score : nat → list json := λ n,
  match n with
  | 1 => [JObj [("id", JInt 1);
                ("payload",
                 JObj [("convergenceChains",
                        JList [JObj [("convergenceScore",
                                      JFloat (Q2Qc (15 # 2)))]])])]]
  | _ => []
  end.

(** C3 (the code breaks the claim).  One recorded score passes the
    guard [if convergence_scores:], and the standard deviation of that one
    value is attempted: the run ends with [StatisticsError]. *)
Theorem single_score_stdev_raises
    (py_repr : json → string) (fmt_1f fmt_2f fmt_sqrt_2f : Qc → string)
    (set_iter : pyset → list hashable) :
  (∀ s, set_iter s ≡ₚ s) →
  let run := main py_repr fmt_1f fmt_2f fmt_sqrt_2f set_iter single_score in
  (∃ a, aggregate_points (load_points single_score) = Ok a
        ∧ convergence_scores a = [JFloat (Q2Qc (15 # 2))])
  ∧ run.2 = Raise StatisticsError
  ∧ last run.1 = Some (Stat Stdev 1).
Proof.
  intros H run.
  pose proof (set_iter_nil _ H) as Hnil.
  pose proof (set_iter_singleton _ (HStr "convergenceChains") H) as Hone.
  split; [by eexists|]. subst run.
  split; vm_compute; vm_compute in Hone; rewrite Hone, Hnil; reflexivity.
Qed.

Lemma single_score_stdev_raises_witness :
  let run := main (λ _, "?") (λ _, "?") (λ _, "?") (λ _, "?") id single_score in
  (∃ a, aggregate_points (load_points single_score) = Ok a
        ∧ convergence_scores a = [JFloat (Q2Qc (15 # 2))])
  ∧ run.2 = Raise StatisticsError
  ∧ last run.1 = Some (Stat Stdev 1).
Proof. apply single_score_stdev_raises. intros s. reflexivity. Defined.

(** ** The score ranges (C4, C10) *)

(** Facts about the order of [Qc] are settled on the underlying [Q]. *)
Ltac qc_order :=
  unfold Qcle, Qclt, Qc_of_Z in *; simpl in *; unfold inject_Z in *; lra.

Definition in_bucket (s : Qc) (range : string * list Qc) : Prop := s ∈ range.2.

#[global] Instance in_bucket_dec s range : Decision (in_bucket s range).
Proof. unfold in_bucket. apply _. Defined.

(** The number of ranges a score has been put in. *)
Definition buckets_of (s : Qc) (scores : list Qc) : nat :=
  length (filter (in_bucket s) (score_ranges scores)).

Lemma buckets_of_eq s scores :
  s ∈ scores →
  buckets_of s scores
  = (if decide (Qc_of_Z 0 ≤ s ∧ s < Qc_of_Z 5)%Qc then 1 else 0)
    + (if decide (Qc_of_Z 5 ≤ s ∧ s < Qc_of_Z 10)%Qc then 1 else 0)
    + (if decide (Qc_of_Z 10 ≤ s ∧ s < Qc_of_Z 15)%Qc then 1 else 0)
    + (if decide (Qc_of_Z 15 ≤ s ∧ s < Qc_of_Z 20)%Qc then 1 else 0)
    + (if decide (Qc_of_Z 20 ≤ s)%Qc then 1 else 0).
Proof.
  intros Hs. unfold buckets_of, score_ranges.
  rewrite !filter_cons, filter_nil. unfold in_bucket. simpl.
  repeat case_decide;
    repeat match goal with
    | H : _ ∈ filter _ _ |- _ => apply list_elem_of_filter in H as [H _]
    | H : ¬ (_ ∈ filter _ _) |- _ =>
        rewrite list_elem_of_filter in H;
        assert (¬ _) by (intros ?; apply H; split; [eassumption|exact Hs]);
        clear H
    end; try done; exfalso; tauto.
Qed.

(** C4, as the code has it.  A recorded score that is not negative is put
    in exactly one of the five ranges; no score is put in two; a negative
    score is put in none.  For the scores 1.0, 6.0, 11.0, 22.0 each range
    receives its score and the mean of the range [20+] is 22.0. *)
Theorem score_in_one_range :
  (∀ (scores : list Qc) (s : Qc),
     s ∈ scores →
     ((Qc_of_Z 0 ≤ s)%Qc → buckets_of s scores = 1)
     ∧ ((s < Qc_of_Z 0)%Qc → buckets_of s scores = 0)
     ∧ buckets_of s scores ≤ 1)
  ∧ score_ranges (Qc_of_Z <$> [1; 6; 11; 22]%Z)
    = [ ("0-5", [Qc_of_Z 1]); ("5-10", [Qc_of_Z 6]); ("10-15", [Qc_of_Z 11]);
        ("15-20", []); ("20+", [Qc_of_Z 22]) ]
  ∧ mean [Qc_of_Z 22] = Ok (Qc_of_Z 22).
Proof.
  split; [|split].
  - intros scores s Hs. rewrite (buckets_of_eq _ _ Hs).
    repeat split; intros; repeat case_decide; try lia; exfalso; qc_order.
  - vm_compute. reflexivity.
  - unfold mean. f_equal. apply Qc_is_canon. reflexivity.
Qed.

Lemma score_in_one_range_witness :
  buckets_of (Qc_of_Z 6) (Qc_of_Z <$> [1; 6; 11; 22]%Z) = 1.
Proof.
  apply (proj1 score_in_one_range (Qc_of_Z <$> [1; 6; 11; 22]%Z) (Qc_of_Z 6)).
  - vm_compute. apply list_elem_of_further, list_elem_of_here.
  - vm_compute. discriminate.
Defined.

(** The claim C4 as it is stated fails on a negative score: the scores
    -1.0 and 3.0 pass every statistic, and -1.0 is put in no range. *)
Lemma negative_score_in_no_range :
  numbers [JFloat (Qc_of_Z (-1)); JFloat (Qc_of_Z 3)]
  = Ok [Qc_of_Z (-1); Qc_of_Z 3]
  ∧ is_ok (variance [Qc_of_Z (-1); Qc_of_Z 3]) = true
  ∧ Qc_of_Z (-1) ∈ [Qc_of_Z (-1); Qc_of_Z 3]
  ∧ buckets_of (Qc_of_Z (-1)) [Qc_of_Z (-1); Qc_of_Z 3] = 0.
Proof.
  split; [done|]. split; [done|]. split; [apply list_elem_of_here|].
  vm_compute. reflexivity.
Qed.

Section Ranges.

Variable fmt_2f : Qc → string.

(** The line printed for a range that holds scores. *)
Definition range_text (range : string * list Qc) : string :=
  "  * " +:+ range.1 +:+ ": " +:+ pretty (length range.2)
  +:+ " scores (avg: "
  +:+ fmt_2f (total range.2 / Qc_of_nat (length range.2))%Qc +:+ ")".

Lemma range_line_empty name : range_line fmt_2f (name, []) = ([], Ok ()).
Proof. done. Qed.

Lemma range_line_nonempty range :
  range.2 ≠ [] →
  range_line fmt_2f range
  = ([Stat Mean (length range.2); Print (range_text range)], Ok ()).
Proof. destruct range as [name [|x b]]; done. Qed.

Lemma for_io_range_line ranges :
  for_io (range_line fmt_2f) ranges
  = (flat_map (λ range, match range.2 with
                        | [] => []
                        | _ :: _ => [Stat Mean (length range.2);
                                     Print (range_text range)]
                        end) ranges, Ok ()).
Proof.
  induction ranges as [|range ranges IH]; [done|].
  cbn [for_io flat_map]. rewrite IH.
  destruct range as [name [|x b]]; [done|].
  rewrite range_line_nonempty by done. by rewrite io_bind_Ok.
Qed.

(** C10.  A range without scores prints nothing; a range with scores
    prints one line with its count and mean; the distribution therefore
    shows exactly the non-empty ranges, in the order of the ranges. *)
Theorem empty_range_omitted (scores : list Qc) :
  (∀ name, stdout (range_line fmt_2f (name, [])) = [])
  ∧ (∀ range, range.2 ≠ [] →
       stdout (range_line fmt_2f range) = [range_text range])
  ∧ stdout (for_io (range_line fmt_2f) (score_ranges scores))
    = range_text <$> filter (λ range, range.2 ≠ []) (score_ranges scores).
Proof.
  split; [done|]. split.
  - intros range H. by rewrite range_line_nonempty.
  - rewrite for_io_range_line. unfold stdout. cbn [fst].
    induction (score_ranges scores) as [|[name [|x b]] ranges IH]; [done|..].
    + rewrite filter_cons_False by (simpl; tauto). apply IH.
    + rewrite filter_cons_True by done. cbn. f_equal. apply IH.
Qed.

End Ranges.

Lemma empty_range_omitted_witness :
  stdout (range_line (λ _, "22.00") ("20+", [Qc_of_Z 22]))
  = [range_text (λ _, "22.00") ("20+", [Qc_of_Z 22])].
Proof.
  apply (proj1 (proj2 (empty_range_omitted (λ _, "22.00") []))). discriminate.
Defined.

(** ** The insights (C9) *)

Lemma io_seq_ok {A B} (m : io A) (k : A → io B) :
  raised (m ≫= k) = None →
  ∃ a, m.2 = Ok a ∧ raised (k a) = None
       ∧ stdout (m ≫= k) = stdout m ++ stdout (k a).
Proof.
  destruct m as [out [a|e]]; [|done].
  rewrite io_bind_Ok. unfold raised, stdout. cbn [fst snd].
  intros H. exists a. by rewrite omap_app.
Qed.

Section Insights.

Variable py_repr : json → string.
Variable fmt_1f fmt_2f fmt_sqrt_2f : Qc → string.
Variable set_iter : pyset → list hashable.

Lemma insights_section_stdout a :
  ∃ rest, stdout (insights_section fmt_2f a)
          = "## Key Insights & Recommendations:"
            :: "1. Data completeness: All 351 points successfully retrieved"
            :: rest.
Proof.
  unfold insights_section. rewrite !stdout_print_bind. by eexists.
Qed.

(** C9.  The insights open with their title and the literal line about
    351 points, whatever the aggregate; a run that ends without an
    exception prints the two lines, whatever number of points it read. *)
Theorem completeness_line_is_literal :
  (∀ a, ∃ rest,
     stdout (insights_section fmt_2f a)
     = "## Key Insights & Recommendations:"
       :: "1. Data completeness: All 351 points successfully retrieved"
       :: rest)
  ∧ (∀ batches,
       raised (main py_repr fmt_1f fmt_2f fmt_sqrt_2f set_iter batches) = None →
       ∃ before after,
         stdout (main py_repr fmt_1f fmt_2f fmt_sqrt_2f set_iter batches)
         = before
           ++ "## Key Insights & Recommendations:"
           :: "1. Data completeness: All 351 points successfully retrieved"
           :: after).
Proof.
  split; [apply insights_section_stdout|].
  intros batches. unfold main, report.
  repeat (let H := fresh in
          intros H; apply io_seq_ok in H as (? & _ & H & ->); revert H).
  intros _.
  match goal with
  | |- context [insights_section fmt_2f ?a] =>
      destruct (insights_section_stdout a) as [rest ->]
  end.
  rewrite !(assoc_L (++)). eexists _, _.
  rewrite <-(assoc_L (++) _ (_ :: _ :: rest)). reflexivity.
Qed.

End Insights.

Definition one_point : nat → list json := λ n,
  match n with
  | 3 => [JObj [("id", JInt 7)]]
  | _ => []
  end.

Lemma completeness_line_is_literal_witness :
  ∃ before after,
    stdout (main (λ _, "?") (λ _, "?") (λ _, "?") (λ _, "?") id one_point)
    = before
      ++ "## Key Insights & Recommendations:"
      :: "1. Data completeness: All 351 points successfully retrieved"
      :: after.
Proof.
  apply (proj2 (completeness_line_is_literal
                  (λ _, "?") (λ _, "?") (λ _, "?") (λ _, "?") id)).
  vm_compute. reflexivity.
Defined.

(** ** What one point contributes

    The body of the loop adds to each accumulator values that depend on the
    point alone; the loop is the fold of these contributions. *)

Record contribution : Type := {
  c_fields : list hashable;
  c_files : list hashable;
  c_categories : list hashable;
  c_intelligence : list hashable;
  c_chains : list nat;
  c_scores : list json;
  c_enrichment : list hashable
}.

Fixpoint hashes (vs : list json) : result (list hashable) :=
  match vs with
  | [] => Ok []
  | v :: vs' => h ← py_hash v; hs ← hashes vs'; Ok (h :: hs)
  end.

Definition hash1 (v : json) : result (list hashable) :=
  h ← py_hash v; Ok [h].

Definition file_of (payload : dict) : result (list hashable) :=
  match dict_get "sourceFile" payload with
  | Some v => hash1 v
  | None =>
      match dict_get "file" payload with
      | Some v => hash1 v
      | None => Ok []
      end
  end.

Definition categories_of (payload : dict) : result (list hashable) :=
  match dict_get "categories" payload with
  | Some (JList cats) => hashes cats
  | Some v => hash1 v
  | None => Ok []
  end.

Definition field_of (k1 k2 : string) (payload : dict)
  : result (list hashable) :=
  match dict_get k1 payload with
  | Some v => hash1 v
  | None =>
      match dict_get k2 payload with
      | Some v => hash1 v
      | None => Ok []
      end
  end.

Definition chains_of (payload : dict) : result (list nat * list json) :=
  extract_chains payload ([], []).

Definition contribution_of (point : json) : result contribution :=
  payload ← get_payload point;
  files ← file_of payload;
  cats ← categories_of payload;
  intel ← field_of "intelligence_type" "intelligenceType" payload;
  cs ← chains_of payload;
  enrich ← field_of "enrichment_level" "enrichmentLevel" payload;
  Ok {| c_fields := (λ kv, HStr kv.1) <$> payload; c_files := files;
        c_categories := cats; c_intelligence := intel; c_chains := cs.1;
        c_scores := cs.2; c_enrichment := enrich |}.

Definition add_all (s : pyset) (hs : list hashable) : pyset :=
  foldl (λ s h, set_add h s) s hs.

Definition incr_all (d : counter) (hs : list hashable) : counter :=
  foldl (λ d h, incr h d) d hs.

Definition add_contribution (a : aggregate) (c : contribution) : aggregate :=
  {| files_unique := add_all (files_unique a) (c_files c);
     categories_dist := incr_all (categories_dist a) (c_categories c);
     intelligence_types := incr_all (intelligence_types a) (c_intelligence c);
     convergence_chains := convergence_chains a ++ c_chains c;
     enrichment_levels := incr_all (enrichment_levels a) (c_enrichment c);
     convergence_scores := convergence_scores a ++ c_scores c;
     payload_fields := add_all (payload_fields a) (c_fields c) |}.

Fixpoint contributions (points : list json) : result (list contribution) :=
  match points with
  | [] => Ok []
  | p :: points' =>
      c ← contribution_of p; cs ← contributions points'; Ok (c :: cs)
  end.

Lemma catalog_fields_add_all payload fields :
  catalog_fields payload fields
  = add_all fields ((λ kv, HStr kv.1) <$> payload).
Proof. unfold catalog_fields, add_all. by rewrite foldl_fmap. Qed.

Lemma extract_file_add_all payload files :
  extract_file payload files
  = (hs ← file_of payload; Ok (add_all files hs)).
Proof.
  unfold extract_file, file_of, hash1.
  destruct (dict_get "sourceFile" payload) as [v|];
    [|destruct (dict_get "file" payload) as [v|]; [|done]];
    by destruct (py_hash v).
Qed.

Lemma count_value_incr_all d v :
  count_value d v = (hs ← hash1 v; Ok (incr_all d hs)).
Proof. unfold count_value, hash1. by destruct (py_hash v). Qed.

Lemma for_each_count_value d cats :
  for_each count_value d cats = (hs ← hashes cats; Ok (incr_all d hs)).
Proof.
  revert d. induction cats as [|v cats IH]; intros d; [done|].
  cbn [for_each hashes]. rewrite count_value_incr_all. unfold hash1.
  destruct (py_hash v) as [h|e]; simpl; [|done]. rewrite IH.
  by destruct (hashes cats).
Qed.

Lemma count_categories_incr_all payload d :
  count_categories payload d
  = (hs ← categories_of payload; Ok (incr_all d hs)).
Proof.
  unfold count_categories, categories_of.
  destruct (dict_get "categories" payload) as [[]|];
    auto using count_value_incr_all, for_each_count_value.
Qed.

Lemma count_field_incr_all k1 k2 payload d :
  count_field k1 k2 payload d
  = (hs ← field_of k1 k2 payload; Ok (incr_all d hs)).
Proof.
  unfold count_field, field_of.
  destruct (dict_get k1 payload); [apply count_value_incr_all|].
  destruct (dict_get k2 payload); [apply count_value_incr_all|done].
Qed.

Lemma record_chain_append acc chain :
  record_chain acc chain
  = (d ← record_chain ([], []) chain; Ok (acc.1 ++ d.1, acc.2 ++ d.2)).
Proof.
  unfold record_chain.
  destruct (py_contains "participants" chain) as [[]|]; simpl; [| |done].
  - destruct (py_getitem chain "participants") as [p|]; simpl; [|done].
    destruct (py_len p); simpl; [|done].
    destruct (py_contains "convergenceScore" chain) as [[]|]; simpl;
      [| by rewrite app_nil_r | done].
    by destruct (py_getitem chain "convergenceScore").
  - destruct (py_contains "convergenceScore" chain) as [[]|]; simpl;
      [| by rewrite !app_nil_r; destruct acc | done].
    destruct (py_getitem chain "convergenceScore"); simpl; [|done].
    by rewrite app_nil_r.
Qed.

Lemma for_each_record_chain acc chains :
  for_each record_chain acc chains
  = (d ← for_each record_chain ([], []) chains;
     Ok (acc.1 ++ d.1, acc.2 ++ d.2)).
Proof.
  revert acc. induction chains as [|chain chains IH]; intros acc.
  { simpl. rewrite !app_nil_r. by destruct acc. }
  cbn [for_each]. rewrite (record_chain_append acc).
  destruct (record_chain ([], []) chain) as [d1|]; simpl; [|done].
  rewrite (IH (_, _)), (IH d1).
  destruct (for_each record_chain ([], []) chains) as [d|]; simpl; [|done].
  by rewrite !(assoc_L (++)).
Qed.

Lemma extract_chains_append payload acc :
  extract_chains payload acc
  = (d ← chains_of payload; Ok (acc.1 ++ d.1, acc.2 ++ d.2)).
Proof.
  unfold chains_of, extract_chains.
  destruct (dict_get "convergenceChains" payload) as [[]|];
    try (simpl; rewrite !app_nil_r; by destruct acc).
  rewrite for_each_record_chain.
  by destruct (for_each record_chain ([], []) l).
Qed.

Lemma process_point_contribution a point :
  process_point a point
  = (c ← contribution_of point; Ok (add_contribution a c)).
Proof.
  unfold process_point, contribution_of.
  destruct (get_payload point) as [payload|]; simpl; [|done].
  rewrite extract_file_add_all, count_categories_incr_all,
    !count_field_incr_all, extract_chains_append, catalog_fields_add_all.
  destruct (file_of payload); simpl; [|done].
  destruct (categories_of payload); simpl; [|done].
  destruct (field_of "intelligence_type" _ payload); simpl; [|done].
  destruct (chains_of payload); simpl; [|done].
  by destruct (field_of "enrichment_level" _ payload).
Qed.

Lemma for_each_process_point a points :
  for_each process_point a points
  = (cs ← contributions points; Ok (foldl add_contribution a cs)).
Proof.
  revert a. induction points as [|p points IH]; intros a; [done|].
  cbn [for_each contributions]. rewrite process_point_contribution.
  destruct (contribution_of p) as [c|]; simpl; [|done].
  rewrite IH. by destruct (contributions points).
Qed.

Lemma foldl_add_contribution a cs :
  foldl add_contribution a cs
  = {| files_unique := add_all (files_unique a) (cs ≫= c_files);
       categories_dist := incr_all (categories_dist a) (cs ≫= c_categories);
       intelligence_types :=
         incr_all (intelligence_types a) (cs ≫= c_intelligence);
       convergence_chains := convergence_chains a ++ (cs ≫= c_chains);
       enrichment_levels :=
         incr_all (enrichment_levels a) (cs ≫= c_enrichment);
       convergence_scores := convergence_scores a ++ (cs ≫= c_scores);
       payload_fields := add_all (payload_fields a) (cs ≫= c_fields) |}.
Proof.
  revert a. induction cs as [|c cs IH]; intros a.
  { destruct a. simpl. by rewrite !app_nil_r. }
  cbn [foldl]. rewrite IH. unfold add_contribution, add_all, incr_all.
  cbn [files_unique categories_dist intelligence_types convergence_chains
       enrichment_levels convergence_scores payload_fields].
  rewrite !bind_cons, !foldl_app, !(assoc_L (++)). reflexivity.
Qed.

(** The aggregate is determined by the contributions of the points. *)
Lemma aggregate_points_Ok points a :
  aggregate_points points = Ok a ↔
  ∃ cs, contributions points = Ok cs
        ∧ a = {| files_unique := add_all [] (cs ≫= c_files);
                 categories_dist := incr_all [] (cs ≫= c_categories);
                 intelligence_types := incr_all [] (cs ≫= c_intelligence);
                 convergence_chains := cs ≫= c_chains;
                 enrichment_levels := incr_all [] (cs ≫= c_enrichment);
                 convergence_scores := cs ≫= c_scores;
                 payload_fields := add_all [] (cs ≫= c_fields) |}.
Proof.
  unfold aggregate_points. rewrite for_each_process_point, bind_Ok.
  setoid_rewrite foldl_add_contribution. simpl.
  split; intros (cs & ? & Ha); exists cs; (split; [done|]); congruence.
Qed.

Lemma contributions_length points cs :
  contributions points = Ok cs → length cs = length points.
Proof.
  revert cs. induction points as [|p points IH]; intros cs; simpl.
  { by intros [= <-]. }
  destruct (contribution_of p); simpl; [|done].
  destruct (contributions points); simpl; [|done].
  intros [= <-]. simpl. f_equal. by apply IH.
Qed.

Lemma contributions_Forall2 points cs :
  contributions points = Ok cs ↔
  Forall2 (λ p c, contribution_of p = Ok c) points cs.
Proof.
  revert cs. induction points as [|p points IH]; intros cs; simpl.
  { split; [intros [= <-]; constructor | by inv 1]. }
  split.
  - destruct (contribution_of p) eqn:Hp; simpl; [|done].
    destruct (contributions points) eqn:Hps; simpl; [|done].
    intros [= <-]. constructor; [done|]. by apply IH.
  - inv 1 as [|???? Hc Hcs]. rewrite Hc. simpl.
    apply IH in Hcs. by rewrite Hcs.
Qed.

Lemma contributions_Permutation points points' cs :
  points ≡ₚ points' → contributions points = Ok cs →
  ∃ cs', contributions points' = Ok cs' ∧ cs ≡ₚ cs'.
Proof.
  intros Hperm. revert cs.
  induction Hperm as [|p l l' _ IH|p q l|l l' l'' _ IH1 _ IH2]; intros cs.
  - intros [= <-]. by exists [].
  - simpl. destruct (contribution_of p); simpl; [|done].
    destruct (contributions l) as [cs0|]; simpl; [|done].
    intros [= <-]. destruct (IH cs0 eq_refl) as (cs' & -> & ?).
    eexists. split; [done|]. by constructor.
  - simpl.
    destruct (contribution_of p), (contribution_of q), (contributions l);
      simpl; try done.
    intros [= <-]. eexists. split; [done|]. constructor.
  - intros H. destruct (IH1 _ H) as (cs1 & H1 & ?).
    destruct (IH2 _ H1) as (cs2 & H2 & ?).
    exists cs2. split; [done|]. by etrans.
Qed.

(** ** Sets and counters *)

Definition keys (s : list hashable) : list hkey := key_of <$> s.

Lemma set_mem_keys h s : set_mem h s = true ↔ key_of h ∈ keys s.
Proof.
  unfold set_mem, keys, py_eqb. rewrite existsb_exists, list_elem_of_fmap.
  setoid_rewrite <-list_elem_of_In. setoid_rewrite bool_decide_eq_true.
  naive_solver.
Qed.

Lemma keys_set_add k h s :
  k ∈ keys (set_add h s) ↔ k ∈ keys s ∨ k = key_of h.
Proof.
  unfold set_add. destruct (set_mem h s) eqn:Hm.
  - apply set_mem_keys in Hm. naive_solver.
  - unfold keys. rewrite fmap_app, elem_of_app. simpl.
    by rewrite list_elem_of_singleton.
Qed.

Lemma NoDup_set_add h s : NoDup (keys s) → NoDup (keys (set_add h s)).
Proof.
  intros Hs. unfold set_add. destruct (set_mem h s) eqn:Hm; [done|].
  unfold keys. rewrite fmap_app. apply NoDup_app. split; [done|]. split.
  - intros k Hk [->|[]%elem_of_nil]%elem_of_cons.
    apply set_mem_keys in Hk. congruence.
  - apply NoDup_singleton.
Qed.

Lemma length_set_add h s : length (set_add h s) ≤ S (length s).
Proof.
  unfold set_add. destruct (set_mem h s); [lia|].
  rewrite length_app. simpl. lia.
Qed.

(** Adding a value that is already a member changes nothing. *)
Lemma set_add_member h s : key_of h ∈ keys s → set_add h s = s.
Proof. intros H%set_mem_keys. unfold set_add. by rewrite H. Qed.

Lemma keys_add_all k s hs :
  k ∈ keys (add_all s hs) ↔ k ∈ keys s ∨ k ∈ keys hs.
Proof.
  revert s. induction hs as [|h hs IH]; intros s; simpl.
  { rewrite elem_of_nil. tauto. }
  rewrite IH, keys_set_add, elem_of_cons. tauto.
Qed.

Lemma NoDup_add_all s hs : NoDup (keys s) → NoDup (keys (add_all s hs)).
Proof.
  revert s. induction hs as [|h hs IH]; intros s Hs; [done|].
  simpl. by apply IH, NoDup_set_add.
Qed.

Lemma length_add_all s hs : length (add_all s hs) ≤ length s + length hs.
Proof.
  revert s. induction hs as [|h hs IH]; intros s; simpl; [lia|].
  etrans; [apply IH|]. pose proof (length_set_add h s). lia.
Qed.

(** The count recorded for a key. *)
Fixpoint count_of (k : hkey) (d : counter) : nat :=
  match d with
  | [] => 0
  | (h, c) :: d' => (if decide (key_of h = k) then c else 0) + count_of k d'
  end.

Definition occurrences (k : hkey) (hs : list hashable) : nat :=
  length (filter (λ h, key_of h = k) hs).

Lemma count_of_incr k h d :
  count_of k (incr h d)
  = count_of k d + (if decide (key_of h = k) then 1 else 0).
Proof.
  induction d as [|[h' c] d IH]; simpl.
  { case_decide; lia. }
  unfold py_eqb. case_bool_decide as Heq; simpl.
  - rewrite Heq. case_decide; lia.
  - rewrite IH. lia.
Qed.

Lemma count_of_incr_all k d hs :
  count_of k (incr_all d hs) = count_of k d + occurrences k hs.
Proof.
  revert d. unfold occurrences.
  induction hs as [|h hs IH]; intros d; simpl; [lia|].
  rewrite IH, count_of_incr, filter_cons. case_decide; simpl; lia.
Qed.

Lemma item_le_count_of h c d : (h, c) ∈ d → c ≤ count_of (key_of h) d.
Proof.
  induction d as [|[h' c'] d IH]; [by intros ?%elem_of_nil|].
  intros [[= <- <-]|Hin]%elem_of_cons; simpl.
  - rewrite decide_True by done. lia.
  - apply IH in Hin. lia.
Qed.

Lemma occurrences_le k hs : occurrences k hs ≤ length hs.
Proof. apply length_filter. Qed.

Lemma occurrences_NoDup k hs : NoDup (keys hs) → occurrences k hs ≤ 1.
Proof.
  unfold occurrences, keys. induction hs as [|h hs IH]; simpl; [lia|].
  rewrite NoDup_cons, filter_cons. intros [Hh Hhs].
  case_decide as Hk; [|by apply IH]. simpl.
  destruct (filter _ hs) as [|h' ?] eqn:Hf; simpl; [lia|].
  assert (h' ∈ filter (λ h0, key_of h0 = k) hs) as Hin
    by (rewrite Hf; left).
  apply list_elem_of_filter in Hin as [Hk' Hin]. destruct Hh.
  rewrite Hk, <-Hk'. by apply list_elem_of_fmap_2.
Qed.

Lemma occurrences_Permutation k hs hs' :
  hs ≡ₚ hs' → occurrences k hs = occurrences k hs'.
Proof. unfold occurrences. by intros ->. Qed.

(** ** The stable sort *)

Section SortedWith.

Context {A : Type} (before : A → A → bool).

(** [x] may stand in front of [y]. *)
Definition in_order (x y : A) : Prop := before y x = false.

Lemma insert_sorted_Permutation x l : insert_sorted before x l ≡ₚ x :: l.
Proof.
  induction l as [|y l IH]; [done|]. simpl.
  destruct (before y x); [|done]. rewrite IH. apply perm_swap.
Qed.

Lemma sorted_with_Permutation l : sorted_with before l ≡ₚ l.
Proof.
  induction l as [|x l IH]; [done|]. unfold sorted_with in *. simpl.
  by rewrite insert_sorted_Permutation, IH.
Qed.

Lemma sorted_with_length l : length (sorted_with before l) = length l.
Proof. by rewrite sorted_with_Permutation. Qed.

Lemma elem_of_sorted_with x l : x ∈ sorted_with before l ↔ x ∈ l.
Proof. by rewrite sorted_with_Permutation. Qed.

(** [before] is the strict part of a total order on the elements. *)
Hypothesis before_asym : ∀ x y, before x y = true → before y x = false.

Lemma insert_sorted_Sorted x l :
  Sorted in_order l → Sorted in_order (insert_sorted before x l).
Proof.
  induction 1 as [|y l Hl IH Hy]; simpl.
  { by repeat constructor. }
  destruct (before y x) eqn:Hyx.
  - constructor; [done|]. destruct Hy as [|z l Hz]; simpl.
    + constructor. by apply before_asym.
    + destruct (before z x); constructor; [done|]. by apply before_asym.
  - constructor; [by constructor|]. by constructor.
Qed.

Lemma sorted_with_Sorted l : Sorted in_order (sorted_with before l).
Proof.
  induction l as [|x l IH]; [constructor|].
  by apply insert_sorted_Sorted.
Qed.

(** The sort does not depend on the order of its input, provided the
    order is transitive and separates the elements of the input. *)
Lemma sorted_with_unique l l' :
  Transitive in_order →
  (∀ x y, x ∈ l → y ∈ l → in_order x y → in_order y x → x = y) →
  l ≡ₚ l' → sorted_with before l = sorted_with before l'.
Proof.
  intros Htrans Hanti Hperm.
  apply (Sorted_unique_strong in_order); [|apply sorted_with_Sorted..|].
  - intros x y Hx Hy. rewrite elem_of_sorted_with in Hx, Hy.
    apply Hanti; [done|]. by rewrite Hperm.
  - by rewrite !sorted_with_Permutation.
Qed.

End SortedWith.

Lemma sorted_nums_Permutation data data' :
  data ≡ₚ data' → sorted_nums data = sorted_nums data'.
Proof.
  apply sorted_with_unique.
  - intros x y. rewrite bool_decide_eq_true, bool_decide_eq_false.
    intros H. by apply Qcle_not_lt, Qclt_le_weak.
  - intros x y z. unfold in_order. rewrite !bool_decide_eq_false.
    intros Hxy%Qcnot_lt_le Hyz%Qcnot_lt_le. apply Qcle_not_lt.
    by apply Qcle_trans with y.
  - intros x y _ _. unfold in_order. rewrite !bool_decide_eq_false.
    intros Hxy%Qcnot_lt_le Hyx%Qcnot_lt_le. by apply Qcle_antisym.
Qed.

Lemma pair_ltb_false a b :
  pair_ltb a b = false ↔ b.1 < a.1 ∨ (b.1 = a.1 ∧ b.2 ≤ a.2).
Proof.
  unfold pair_ltb.
  destruct (a.1 <? b.1) eqn:H1; destruct (a.1 =? b.1) eqn:H2;
    destruct (a.2 <? b.2) eqn:H3; simpl;
    rewrite ?Nat.ltb_lt, ?Nat.ltb_ge, ?Nat.eqb_eq, ?Nat.eqb_neq in *;
    split; try done; lia.
Qed.

Lemma sorted_items_Permutation c c' :
  c ≡ₚ c' → sorted_items c = sorted_items c'.
Proof.
  apply sorted_with_unique.
  - intros x y H. apply pair_ltb_false.
    destruct (pair_ltb y x) eqn:H'; [|by apply pair_ltb_false].
    unfold pair_ltb in *.
    rewrite !orb_true_iff, !andb_true_iff, !Nat.ltb_lt, !Nat.eqb_eq in *.
    lia.
  - intros x y z. unfold in_order. rewrite !pair_ltb_false. lia.
  - intros [x1 x2] [y1 y2] _ _. unfold in_order. rewrite !pair_ltb_false.
    simpl. intros. f_equal; lia.
Qed.

(** ** Statistics of a permuted list *)

Lemma total_Permutation data data' : data ≡ₚ data' → total data = total data'.
Proof.
  induction 1 as [|x l l' _ IH|x y l|l l' l'' _ IH1 _ IH2]; simpl.
  - done.
  - by rewrite IH.
  - rewrite !Qcplus_assoc. f_equal. apply Qcplus_comm.
  - by rewrite IH1.
Qed.

Lemma mean_Permutation data data' : data ≡ₚ data' → mean data = mean data'.
Proof.
  intros H. unfold mean. rewrite (total_Permutation _ _ H).
  pose proof (Permutation_length H) as Hlen.
  destruct data, data'; try done. by rewrite Hlen.
Qed.

Lemma median_Permutation data data' :
  data ≡ₚ data' → median data = median data'.
Proof. intros H. unfold median. by rewrite (sorted_nums_Permutation _ _ H). Qed.

Lemma variance_Permutation data data' :
  data ≡ₚ data' → variance data = variance data'.
Proof.
  intros H. unfold variance.
  rewrite (total_Permutation _ _ H), (Permutation_length H).
  case_match; [done|]. do 2 f_equal.
  apply total_Permutation. by apply fmap_Permutation.
Qed.

Lemma foldl_Qc_max x l :
  foldl Qc_max x l ∈ x :: l ∧ ∀ y, y ∈ x :: l → (y ≤ foldl Qc_max x l)%Qc.
Proof.
  revert x. induction l as [|z l IH]; intros x; simpl.
  { split; [left|]. intros y ->%list_elem_of_singleton. apply Qcle_refl. }
  destruct (IH (Qc_max x z)) as [Hin Hmax]. split.
  - apply elem_of_cons in Hin as [Hin|Hin]; [|by do 2 right].
    rewrite Hin. unfold Qc_max. case_bool_decide; [right; left|left].
  - intros y Hy. assert (y ≤ Qc_max x z ∨ y ∈ l)%Qc as [Hle|Hl].
    { rewrite !elem_of_cons in Hy. destruct Hy as [->|[->|?]]; [| |by right];
        left; unfold Qc_max; case_bool_decide;
        auto using Qcle_refl, Qclt_le_weak, Qcnot_lt_le. }
    + eapply Qcle_trans; [done|]. apply Hmax. left.
    + apply Hmax. by right.
Qed.

Lemma foldl_Qc_min x l :
  foldl Qc_min x l ∈ x :: l ∧ ∀ y, y ∈ x :: l → (foldl Qc_min x l ≤ y)%Qc.
Proof.
  revert x. induction l as [|z l IH]; intros x; simpl.
  { split; [left|]. intros y ->%list_elem_of_singleton. apply Qcle_refl. }
  destruct (IH (Qc_min x z)) as [Hin Hmin]. split.
  - apply elem_of_cons in Hin as [Hin|Hin]; [|by do 2 right].
    rewrite Hin. unfold Qc_min. case_bool_decide; [right; left|left].
  - intros y Hy. assert (Qc_min x z ≤ y ∨ y ∈ l)%Qc as [Hle|Hl].
    { rewrite !elem_of_cons in Hy. destruct Hy as [->|[->|?]]; [| |by right];
        left; unfold Qc_min; case_bool_decide;
        auto using Qcle_refl, Qclt_le_weak, Qcnot_lt_le. }
    + eapply Qcle_trans; [|done]. apply Hmin. left.
    + apply Hmin. by right.
Qed.

Lemma py_max_Permutation data data' :
  data ≡ₚ data' → py_max data = py_max data'.
Proof.
  intros H. destruct data as [|x l], data' as [|x' l'].
  - done.
  - by apply Permutation_nil_l in H.
  - by apply Permutation_nil_r in H.
  - simpl. f_equal.
    destruct (foldl_Qc_max x l) as [Hin Hmax].
    destruct (foldl_Qc_max x' l') as [Hin' Hmax'].
    apply Qcle_antisym; [apply Hmax'|apply Hmax]; first [by rewrite <-H|by rewrite H].
Qed.

Lemma py_min_Permutation data data' :
  data ≡ₚ data' → py_min data = py_min data'.
Proof.
  intros H. destruct data as [|x l], data' as [|x' l'].
  - done.
  - by apply Permutation_nil_l in H.
  - by apply Permutation_nil_r in H.
  - simpl. f_equal.
    destruct (foldl_Qc_min x l) as [Hin Hmin].
    destruct (foldl_Qc_min x' l') as [Hin' Hmin'].
    apply Qcle_antisym; [apply Hmin|apply Hmin']; first [by rewrite H|by rewrite <-H].
Qed.

Lemma foldl_max x l :
  foldl Nat.max x l ∈ x :: l ∧ ∀ y, y ∈ x :: l → y ≤ foldl Nat.max x l.
Proof.
  revert x. induction l as [|z l IH]; intros x; simpl.
  { split; [left|]. by intros y ->%list_elem_of_singleton. }
  destruct (IH (x `max` z)) as [Hin Hmax]. split.
  - apply elem_of_cons in Hin as [Hin|Hin]; [|by do 2 right].
    rewrite Hin. destruct (Nat.max_spec x z) as [[_ ->]|[_ ->]];
      [right; left|left].
  - intros y Hy. rewrite !elem_of_cons in Hy.
    destruct Hy as [->|[->|?]]; [| |apply Hmax; by right];
      (etrans; [|apply Hmax; left]); lia.
Qed.

Lemma foldl_min x l :
  foldl Nat.min x l ∈ x :: l ∧ ∀ y, y ∈ x :: l → foldl Nat.min x l ≤ y.
Proof.
  revert x. induction l as [|z l IH]; intros x; simpl.
  { split; [left|]. by intros y ->%list_elem_of_singleton. }
  destruct (IH (x `min` z)) as [Hin Hmin]. split.
  - apply elem_of_cons in Hin as [Hin|Hin]; [|by do 2 right].
    rewrite Hin. destruct (Nat.min_spec x z) as [[_ ->]|[_ ->]];
      [left|right; left].
  - intros y Hy. rewrite !elem_of_cons in Hy.
    destruct Hy as [->|[->|?]]; [| |apply Hmin; by right];
      (etrans; [apply Hmin; left|]); lia.
Qed.

Lemma max_int_Permutation data data' :
  data ≡ₚ data' → max_int data = max_int data'.
Proof.
  intros H. destruct data as [|x l], data' as [|x' l'].
  - done.
  - by apply Permutation_nil_l in H.
  - by apply Permutation_nil_r in H.
  - simpl. f_equal.
    destruct (foldl_max x l) as [Hin Hmax].
    destruct (foldl_max x' l') as [Hin' Hmax'].
    apply Nat.le_antisymm; [apply Hmax'|apply Hmax];
      first [by rewrite <-H|by rewrite H].
Qed.

Lemma min_int_Permutation data data' :
  data ≡ₚ data' → min_int data = min_int data'.
Proof.
  intros H. destruct data as [|x l], data' as [|x' l'].
  - done.
  - by apply Permutation_nil_l in H.
  - by apply Permutation_nil_r in H.
  - simpl. f_equal.
    destruct (foldl_min x l) as [Hin Hmin].
    destruct (foldl_min x' l') as [Hin' Hmin'].
    apply Nat.le_antisymm; [apply Hmin|apply Hmin'];
      first [by rewrite H|by rewrite <-H].
Qed.


Lemma numbers_Raise data e : numbers data = Raise e → e = TypeError.
Proof.
  induction data as [|v data IH]; simpl; [done|].
  destruct (number v) eqn:Hv; simpl.
  - destruct (numbers data); simpl; [intros [=]|]. intros [= <-]. by apply IH.
  - intros [= <-]. destruct v; simpl in Hv; try destruct b; congruence.
Qed.

Lemma numbers_Permutation data data' xs :
  data ≡ₚ data' → numbers data = Ok xs →
  ∃ xs', numbers data' = Ok xs' ∧ xs ≡ₚ xs'.
Proof.
  intros Hperm. revert xs.
  induction Hperm as [|v l l' _ IH|v w l|l l' l'' _ IH1 _ IH2]; intros xs.
  - intros [= <-]. by exists [].
  - simpl. destruct (number v); simpl; [|done].
    destruct (numbers l) as [xs0|]; simpl; [|done].
    intros [= <-]. destruct (IH xs0 eq_refl) as (xs' & -> & ?).
    eexists. split; [done|]. by constructor.
  - simpl. destruct (number v), (number w), (numbers l); simpl; try done.
    intros [= <-]. eexists. split; [done|]. constructor.
  - intros H. destruct (IH1 _ H) as (xs1 & H1 & ?).
    destruct (IH2 _ H1) as (xs2 & H2 & ?).
    exists xs2. split; [done|]. by etrans.
Qed.

(** ** [Counter] of a permuted list *)

Fixpoint tally_of (k : nat) (c : list (nat * nat)) : nat :=
  match c with
  | [] => 0
  | (n, m) :: c' => (if decide (n = k) then m else 0) + tally_of k c'
  end.

Lemma tally_of_tally k n c :
  tally_of k (tally n c) = tally_of k c + (if decide (n = k) then 1 else 0).
Proof.
  induction c as [|[n' m] c IH]; simpl.
  { case_decide; lia. }
  destruct (n' =? n) eqn:Hn; simpl.
  - apply Nat.eqb_eq in Hn as ->. case_decide; lia.
  - rewrite IH. lia.
Qed.

Lemma elem_of_tally_fst k n c : k ∈ (tally n c).*1 ↔ k ∈ c.*1 ∨ k = n.
Proof.
  induction c as [|[n' m] c IH]; simpl.
  { rewrite list_elem_of_singleton, elem_of_nil. tauto. }
  destruct (n' =? n) eqn:Hn; simpl.
  - apply Nat.eqb_eq in Hn as ->. rewrite !elem_of_cons. tauto.
  - rewrite !elem_of_cons, IH. tauto.
Qed.

Lemma tally_NoDup n c : NoDup c.*1 → NoDup (tally n c).*1.
Proof.
  induction c as [|[n' m] c IH]; simpl.
  { intros _. apply NoDup_singleton. }
  rewrite NoDup_cons. intros [Hn' Hc].
  destruct (n' =? n) eqn:Hn; simpl.
  - by apply NoDup_cons.
  - apply NoDup_cons. split; [|by apply IH].
    rewrite elem_of_tally_fst. apply Nat.eqb_neq in Hn. tauto.
Qed.

Lemma tally_positive n c :
  Forall (λ kv, 0 < kv.2) c → Forall (λ kv, 0 < kv.2) (tally n c).
Proof.
  induction 1 as [|[n' m] c Hm Hc IH]; simpl.
  { repeat constructor. }
  destruct (n' =? n); constructor; simpl in *; auto with lia.
Qed.

Lemma Counter_snoc l n : Counter (l ++ [n]) = tally n (Counter l).
Proof. unfold Counter. by rewrite foldl_snoc. Qed.

Lemma Counter_spec l :
  NoDup (Counter l).*1 ∧ Forall (λ kv, 0 < kv.2) (Counter l)
  ∧ ∀ k, tally_of k (Counter l) = length (filter (λ n, n = k) l).
Proof.
  induction l as [|n l (Hnd & Hpos & Hcount)] using rev_ind.
  { repeat split; constructor. }
  rewrite Counter_snoc. split; [by apply tally_NoDup|].
  split; [by apply tally_positive|].
  intros k. rewrite tally_of_tally, Hcount, filter_app, length_app.
  rewrite filter_cons, filter_nil. by case_decide.
Qed.

Lemma tally_of_absent k c : k ∉ c.*1 → tally_of k c = 0.
Proof.
  induction c as [|[n m] c IH]; simpl; [done|].
  rewrite not_elem_of_cons. intros [Hk Hc].
  rewrite decide_False by done. by rewrite IH.
Qed.

Lemma elem_of_tally_of k m c :
  NoDup c.*1 → Forall (λ kv, 0 < kv.2) c →
  (k, m) ∈ c ↔ 0 < m ∧ tally_of k c = m.
Proof.
  induction c as [|[n m'] c IH]; simpl.
  { intros _ _. rewrite elem_of_nil. lia. }
  rewrite NoDup_cons, Forall_cons. simpl. intros [Hn Hnd] [Hm' Hpos].
  rewrite elem_of_cons, (IH Hnd Hpos). case_decide as Hk.
  - subst n. rewrite (tally_of_absent _ _ Hn). split.
    + intros [[= ->]|[? ?]]; lia.
    + intros [? ?]. left. f_equal. lia.
  - split.
    + intros [[= -> ->]|?]; [done|lia].
    + intros [? ?]. right. lia.
Qed.

Lemma Counter_Permutation l l' : l ≡ₚ l' → Counter l ≡ₚ Counter l'.
Proof.
  intros H.
  destruct (Counter_spec l) as (Hnd & Hpos & Hcount).
  destruct (Counter_spec l') as (Hnd' & Hpos' & Hcount').
  apply NoDup_Permutation; [by eapply NoDup_fmap_1..|].
  intros [k m]. rewrite !elem_of_tally_of, Hcount, Hcount' by done.
  by rewrite H.
Qed.

Lemma size_distribution_Permutation l l' :
  l ≡ₚ l' → sorted_items (Counter l) = sorted_items (Counter l').
Proof. intros H. by apply sorted_items_Permutation, Counter_Permutation. Qed.

(** ** Counters after the loop *)

(** A counter made by [incr] alone has one entry for each key, and every
    entry counts at least one. *)
Definition counter_wf (d : counter) : Prop :=
  NoDup (keys d.*1) ∧ Forall (λ item, 0 < item.2) d.

Lemma elem_of_keys_incr k h d :
  k ∈ keys (incr h d).*1 ↔ k ∈ keys d.*1 ∨ k = key_of h.
Proof.
  induction d as [|[h' c] d IH]; simpl.
  { rewrite list_elem_of_singleton, elem_of_nil. tauto. }
  unfold py_eqb. case_bool_decide as Heq; simpl.
  - rewrite !elem_of_cons, Heq. tauto.
  - rewrite !elem_of_cons, IH. tauto.
Qed.

Lemma incr_wf h d : counter_wf d → counter_wf (incr h d).
Proof.
  intros [Hnd Hpos]. split.
  - induction d as [|[h' c] d IH]; simpl.
    { apply NoDup_singleton. }
    simpl in Hnd. apply NoDup_cons in Hnd as [Hh' Hnd].
    apply Forall_cons in Hpos as [_ Hpos].
    unfold py_eqb. case_bool_decide as Heq; simpl.
    + by apply NoDup_cons.
    + apply NoDup_cons. split; [|by apply IH].
      rewrite elem_of_keys_incr. naive_solver.
  - induction Hpos as [|[h' c] d Hc Hd IH]; simpl.
    { repeat constructor. }
    simpl in Hnd. apply NoDup_cons in Hnd as [_ Hnd].
    destruct (py_eqb h' h); constructor; simpl in *; auto with lia.
Qed.

Lemma incr_all_wf d hs : counter_wf d → counter_wf (incr_all d hs).
Proof.
  revert d. induction hs as [|h hs IH]; intros d Hd; [done|].
  simpl. by apply IH, incr_wf.
Qed.

Lemma count_of_absent k d : k ∉ keys d.*1 → count_of k d = 0.
Proof.
  induction d as [|[h c] d IH]; simpl; [done|].
  rewrite not_elem_of_cons. intros [Hk Hd].
  rewrite decide_False by done. by rewrite IH.
Qed.

(** In a well-formed counter the entry of a key holds its count. *)
Lemma elem_of_counter h c d :
  counter_wf d → (h, c) ∈ d → count_of (key_of h) d = c.
Proof.
  intros [Hnd _]. induction d as [|[h' c'] d IH]; simpl.
  { by intros ?%elem_of_nil. }
  simpl in Hnd. apply NoDup_cons in Hnd as [Hh' Hnd].
  intros [[= <- <-]|Hin]%elem_of_cons.
  - rewrite decide_True by done. rewrite count_of_absent by done. lia.
  - rewrite decide_False, IH by
      (try done; intros Heq; apply Hh'; rewrite Heq;
       apply (list_elem_of_fmap_2 key_of), (list_elem_of_fmap_2 fst _ _ Hin)).
    done.
Qed.

Lemma elem_of_counter_keys k d :
  counter_wf d → k ∈ keys d.*1 ↔ 0 < count_of k d.
Proof.
  intros [_ Hpos]. induction Hpos as [|[h c] d Hc Hd IH]; simpl.
  { rewrite elem_of_nil. lia. }
  rewrite elem_of_cons, IH. simpl in Hc. case_decide as Hk.
  - split; [lia|]. intros _. by left.
  - split; [intros [->|?]; [done|lia]|]. intros. right. lia.
Qed.

(** ** The contribution of a point, unfolded *)

Lemma contribution_of_Ok point c :
  contribution_of point = Ok c ↔
  ∃ payload,
    get_payload point = Ok payload
    ∧ file_of payload = Ok (c_files c)
    ∧ categories_of payload = Ok (c_categories c)
    ∧ field_of "intelligence_type" "intelligenceType" payload
      = Ok (c_intelligence c)
    ∧ chains_of payload = Ok (c_chains c, c_scores c)
    ∧ field_of "enrichment_level" "enrichmentLevel" payload
      = Ok (c_enrichment c)
    ∧ c_fields c = (λ kv, HStr kv.1) <$> payload.
Proof.
  unfold contribution_of. split.
  - destruct (get_payload point) as [payload|]; simpl; [|done].
    destruct (file_of payload) eqn:?; simpl; [|done].
    destruct (categories_of payload) eqn:?; simpl; [|done].
    destruct (field_of "intelligence_type" _ payload) eqn:?; simpl; [|done].
    destruct (chains_of payload) as [[]|] eqn:?; simpl; [|done].
    destruct (field_of "enrichment_level" _ payload) eqn:?; simpl; [|done].
    intros [= <-]. exists payload. by repeat split.
  - intros (payload & H1 & H2 & H3 & H4 & H5 & H6 & H7).
    rewrite H1; simpl. rewrite H2; simpl. rewrite H3; simpl.
    rewrite H4; simpl. rewrite H5; simpl. rewrite H6; simpl.
    rewrite <-H7. by destruct c.
Qed.

Lemma hash1_length v hs : hash1 v = Ok hs → length hs = 1.
Proof. unfold hash1. destruct (py_hash v); simpl; [|done]. by intros [= <-]. Qed.

Lemma file_of_length payload hs : file_of payload = Ok hs → length hs ≤ 1.
Proof.
  unfold file_of. repeat case_match; try (intros ?%hash1_length; lia).
  intros [= <-]. simpl. lia.
Qed.

Lemma field_of_length k1 k2 payload hs :
  field_of k1 k2 payload = Ok hs → length hs ≤ 1.
Proof.
  unfold field_of. repeat case_match; try (intros ?%hash1_length; lia).
  intros [= <-]. simpl. lia.
Qed.

Lemma bind_length_le {A B} (f : A → list B) (l : list A) :
  Forall (λ x, length (f x) ≤ 1) l → length (l ≫= f) ≤ length l.
Proof.
  induction 1 as [|x l Hx Hl IH]; [done|].
  rewrite bind_cons, length_app. simpl. lia.
Qed.

Lemma contributions_Forall (P : contribution → Prop) points cs :
  contributions points = Ok cs →
  (∀ p c, p ∈ points → contribution_of p = Ok c → P c) →
  Forall P cs.
Proof.
  intros H%contributions_Forall2 HP.
  induction H as [|p c points cs Hc _ IH]; constructor.
  - apply (HP p); [left|done].
  - apply IH. intros p' c' Hp'. apply HP. by right.
Qed.

Lemma files_length points cs :
  contributions points = Ok cs → length (cs ≫= c_files) ≤ length points.
Proof.
  intros H. rewrite <-(contributions_length _ _ H). apply bind_length_le.
  apply (contributions_Forall _ _ _ H).
  intros p c _ (payload & _ & Hf & _)%contribution_of_Ok.
  by eapply file_of_length.
Qed.

(** ** Aggregates that agree *)

(** Two counters that hold the same keys with the same counts. *)
Definition same_counts (d d' : counter) : Prop :=
  keys d.*1 ≡ₚ keys d'.*1 ∧ ∀ k, count_of k d = count_of k d'.

Lemma add_all_Permutation hs hs' :
  hs ≡ₚ hs' → keys (add_all [] hs) ≡ₚ keys (add_all [] hs').
Proof.
  intros H. apply NoDup_Permutation.
  - apply NoDup_add_all. constructor.
  - apply NoDup_add_all. constructor.
  - intros k. rewrite !keys_add_all. unfold keys. by rewrite H.
Qed.

Lemma incr_all_Permutation hs hs' :
  hs ≡ₚ hs' → same_counts (incr_all [] hs) (incr_all [] hs').
Proof.
  intros H.
  assert (counter_wf []) as Hnil by (split; constructor).
  assert (∀ k, count_of k (incr_all [] hs) = count_of k (incr_all [] hs'))
    as Hcount.
  { intros k. rewrite !count_of_incr_all. f_equal.
    by apply occurrences_Permutation. }
  split; [|done]. apply NoDup_Permutation.
  - by apply incr_all_wf.
  - by apply incr_all_wf.
  - intros k. rewrite !elem_of_counter_keys by by apply incr_all_wf.
    by rewrite Hcount.
Qed.

(** What the report derives from the participant counts and the scores. *)
Definition chain_statistics (chains : list nat) :=
  (length chains, mean (Qc_of_nat <$> chains), median (Qc_of_nat <$> chains),
   max_int chains, min_int chains, sorted_items (Counter chains)).

Definition range_statistics (scores : list Qc) :=
  (λ range, (range.1, length range.2, mean range.2)) <$> score_ranges scores.

Definition score_statistics (scores : list json) :=
  xs ← numbers scores;
  Ok (length xs, mean xs, median xs, py_max xs, py_min xs, variance xs,
      range_statistics xs).

Lemma chain_statistics_Permutation chains chains' :
  chains ≡ₚ chains' → chain_statistics chains = chain_statistics chains'.
Proof.
  intros H. unfold chain_statistics.
  assert (Qc_of_nat <$> chains ≡ₚ Qc_of_nat <$> chains') as Hq
    by by apply fmap_Permutation.
  by rewrite (Permutation_length H), (mean_Permutation _ _ Hq),
    (median_Permutation _ _ Hq), (max_int_Permutation _ _ H),
    (min_int_Permutation _ _ H), (size_distribution_Permutation _ _ H).
Qed.

Lemma range_statistics_Permutation xs xs' :
  xs ≡ₚ xs' → range_statistics xs = range_statistics xs'.
Proof.
  intros H. unfold range_statistics, score_ranges.
  assert (∀ (P : Qc → Prop) (dec : ∀ x, Decision (P x)),
            length (filter P xs) = length (filter P xs')
            ∧ mean (filter P xs) = mean (filter P xs')) as HF.
  { intros P dec. assert (filter P xs ≡ₚ filter P xs') as HP by by rewrite H.
    split; [by apply Permutation_length|by apply mean_Permutation]. }
  rewrite !fmap_cons. cbn [fst snd].
  by rewrite !(proj1 (HF _ _)), !(proj2 (HF _ _)).
Qed.

Lemma score_statistics_Permutation scores scores' :
  scores ≡ₚ scores' → score_statistics scores = score_statistics scores'.
Proof.
  intros H. unfold score_statistics.
  destruct (numbers scores) as [xs|e] eqn:Hs.
  - destruct (numbers_Permutation _ _ _ H Hs) as (xs' & -> & Hx). simpl.
    by rewrite (Permutation_length Hx), (mean_Permutation _ _ Hx),
      (median_Permutation _ _ Hx), (py_max_Permutation _ _ Hx),
      (py_min_Permutation _ _ Hx), (variance_Permutation _ _ Hx),
      (range_statistics_Permutation _ _ Hx).
  - destruct (numbers scores') as [xs'|e'] eqn:Hs'.
    + symmetry in H.
      destruct (numbers_Permutation _ _ _ H Hs') as (? & ? & _). congruence.
    + apply numbers_Raise in Hs, Hs'. by subst.
Qed.

(** Reading the documents in another order permutes the points. *)
Lemma load_points_reorder (batches : nat → list json) (σ : nat → nat) :
  σ <$> seq 1 4 ≡ₚ seq 1 4 →
  load_points (batches ∘ σ) ≡ₚ load_points batches.
Proof.
  intros H. unfold load_points.
  assert (∀ l, flat_map (batches ∘ σ) l = flat_map batches (σ <$> l)) as ->.
  { induction l as [|n l IH]; simpl; [done|]. by rewrite IH. }
  by apply Permutation_flat_map.
Qed.

(** ** Order independence (C5) *)

(** C5.  Let the documents be read in another order and the records of the
    merged sequence be reordered.  When the aggregation of the points
    succeeds it succeeds on the reordered points, with the same set of file
    identities, the same counts per category, per intelligence type and per
    enrichment level, the same statistics of the participant counts and of
    the scores, and the same set of payload field names.  The file
    identities are pairwise distinct and there are at most as many as
    points. *)
Theorem aggregate_order_independent
    (batches batches' : nat → list json) (σ : nat → nat) (a : aggregate) :
  σ <$> seq 1 4 ≡ₚ seq 1 4 →
  load_points batches' ≡ₚ load_points (batches ∘ σ) →
  aggregate_points (load_points batches) = Ok a →
  ∃ a', aggregate_points (load_points batches') = Ok a'
    ∧ keys (files_unique a) ≡ₚ keys (files_unique a')
    ∧ same_counts (categories_dist a) (categories_dist a')
    ∧ same_counts (intelligence_types a) (intelligence_types a')
    ∧ same_counts (enrichment_levels a) (enrichment_levels a')
    ∧ chain_statistics (convergence_chains a)
      = chain_statistics (convergence_chains a')
    ∧ score_statistics (convergence_scores a)
      = score_statistics (convergence_scores a')
    ∧ keys (payload_fields a) ≡ₚ keys (payload_fields a')
    ∧ NoDup (keys (files_unique a))
    ∧ length (files_unique a) ≤ length (load_points batches).
Proof.
  intros Hσ Hperm Ha.
  assert (load_points batches ≡ₚ load_points batches') as HP.
  { rewrite Hperm. symmetry. by apply load_points_reorder. }
  apply aggregate_points_Ok in Ha as (cs & Hcs & ->).
  destruct (contributions_Permutation _ _ _ HP Hcs) as (cs' & Hcs' & Hc).
  assert (∀ B (f : contribution → list B), cs ≫= f ≡ₚ cs' ≫= f) as HB.
  { intros B f. by rewrite Hc. }
  eexists. split; [apply aggregate_points_Ok; by eexists|]. simpl.
  split; [apply add_all_Permutation, HB|].
  split; [apply incr_all_Permutation, HB|].
  split; [apply incr_all_Permutation, HB|].
  split; [apply incr_all_Permutation, HB|].
  split; [apply chain_statistics_Permutation, HB|].
  split; [apply score_statistics_Permutation, HB|].
  split; [apply add_all_Permutation, HB|].
  split; [apply NoDup_add_all; constructor|].
  etrans; [apply length_add_all|]. simpl. by apply files_length.
Qed.

Definition two_documents : nat → list json := λ n,
  match n with
  | 1 => [JObj [("id", JInt 1);
                ("payload", JObj [("sourceFile", JStr "b.md");
                                  ("categories", JList [JStr "x"; JStr "y"])])];
          JObj [("id", JInt 2);
                ("payload", JObj [("file", JStr "a.md");
                                  ("categories", JStr "x")])]]
  | 2 => [JObj [("id", JInt 3);
                ("payload", JObj [("sourceFile", JStr "b.md")])]]
  | _ => []
  end.

Definition two_documents_reordered : nat → list json := λ n,
  match n with
  | 1 => [JObj [("id", JInt 3);
                ("payload", JObj [("sourceFile", JStr "b.md")])]]
  | 2 => [JObj [("id", JInt 2);
                ("payload", JObj [("file", JStr "a.md");
                                  ("categories", JStr "x")])];
          JObj [("id", JInt 1);
                ("payload", JObj [("sourceFile", JStr "b.md");
                                  ("categories", JList [JStr "x"; JStr "y"])])]]
  | _ => []
  end.

Definition swap_1_2 (n : nat) : nat :=
  match n with 1 => 2 | 2 => 1 | _ => n end.

Definition two_documents_aggregate : aggregate :=
  {| files_unique := [HStr "b.md"; HStr "a.md"];
     categories_dist := [(HStr "x", 2); (HStr "y", 1)];
     intelligence_types := []; convergence_chains := [];
     enrichment_levels := []; convergence_scores := [];
     payload_fields := [HStr "sourceFile"; HStr "categories"; HStr "file"] |}.

Lemma aggregate_order_independent_witness :
  ∃ a', aggregate_points (load_points two_documents_reordered) = Ok a'
    ∧ keys (files_unique two_documents_aggregate) ≡ₚ keys (files_unique a')
    ∧ same_counts (categories_dist two_documents_aggregate)
                  (categories_dist a')
    ∧ same_counts (intelligence_types two_documents_aggregate)
                  (intelligence_types a')
    ∧ same_counts (enrichment_levels two_documents_aggregate)
                  (enrichment_levels a')
    ∧ chain_statistics (convergence_chains two_documents_aggregate)
      = chain_statistics (convergence_chains a')
    ∧ score_statistics (convergence_scores two_documents_aggregate)
      = score_statistics (convergence_scores a')
    ∧ keys (payload_fields two_documents_aggregate) ≡ₚ keys (payload_fields a')
    ∧ NoDup (keys (files_unique two_documents_aggregate))
    ∧ length (files_unique two_documents_aggregate)
      ≤ length (load_points two_documents).
Proof.
  apply (aggregate_order_independent two_documents two_documents_reordered
           swap_1_2).
  - apply perm_swap.
  - apply perm_skip, perm_swap.
  - reflexivity.
Defined.

(** ** Percentages (C1) *)

Lemma Qc_of_nat_pos n : 0 < n → (Qc_of_Z 0 < Qc_of_nat n)%Qc.
Proof.
  intros H. unfold Qclt, Qc_of_nat, Qc_of_Z. simpl.
  rewrite <-Zlt_Qlt. lia.
Qed.

Lemma Qc_of_nat_le m n : m ≤ n → (Qc_of_nat m ≤ Qc_of_nat n)%Qc.
Proof.
  intros H. unfold Qcle, Qc_of_nat, Qc_of_Z. simpl.
  rewrite <-Zle_Qle. lia.
Qed.

(** The quotient [count / n * 100] for [n] points. *)
Definition percent (count n : nat) : Qc :=
  (Qc_of_nat count / Qc_of_nat n * Qc_of_Z 100)%Qc.

Lemma percentage_Ok count n :
  0 < n → percentage count n = ([Divide count n], Ok (percent count n)).
Proof.
  intros H. unfold percentage. destruct n; [lia|]. done.
Qed.

Lemma Q_percent_bounds (c q : Q) :
  (0 < q)%Q → (0 <= c)%Q →
  (0 <= c * / q * inject_Z 100)%Q
  ∧ ((c <= q)%Q → (c * / q * inject_Z 100 <= inject_Z 100)%Q).
Proof.
  intros Hq Hc.
  assert (0 < / q)%Q as Hi by by apply Qinv_lt_0_compat.
  assert (0 <= c * / q)%Q as H0.
  { apply Qmult_le_0_compat; [done|]. by apply Qlt_le_weak. }
  split.
  - apply Qmult_le_0_compat; [done|]. by unfold inject_Z.
  - intros Hle. assert (c * / q <= 1)%Q as H1.
    { apply Qle_shift_div_r; [done|]. by rewrite Qmult_1_l. }
    unfold inject_Z in *. nra.
Qed.

Lemma percent_this count n :
  (this (percent count n)
   == inject_Z (Z.of_nat count) * / inject_Z (Z.of_nat n) * inject_Z 100)%Q.
Proof.
  unfold percent, Qcdiv, Qcmult, Qcinv, Q2Qc. cbn [this].
  rewrite !Qred_correct. reflexivity.
Qed.

Lemma percent_nonneg count n : 0 < n → (Qc_of_Z 0 ≤ percent count n)%Qc.
Proof.
  intros Hn. unfold Qcle. rewrite percent_this.
  apply Q_percent_bounds.
  - change 0%Q with (inject_Z 0). rewrite <-Zlt_Qlt. lia.
  - change 0%Q with (inject_Z 0). rewrite <-Zle_Qle. lia.
Qed.

Lemma percent_le_100 count n :
  0 < n → count ≤ n → (percent count n ≤ Qc_of_Z 100)%Qc.
Proof.
  intros Hn Hc. unfold Qcle. rewrite percent_this.
  apply Q_percent_bounds.
  - change 0%Q with (inject_Z 0). rewrite <-Zlt_Qlt. lia.
  - change 0%Q with (inject_Z 0). rewrite <-Zle_Qle. lia.
  - rewrite <-Zle_Qle. lia.
Qed.

Lemma count_points_le keys points start count :
  for_each
    (λ n p, payload ← get_payload p;
            Ok (if existsb (λ k, dict_has k payload) keys then S n else n))
    start points = Ok count →
  count ≤ start + length points.
Proof.
  revert start. induction points as [|p points IH]; intros start; simpl.
  { intros [= <-]. lia. }
  destruct (get_payload p); simpl; [|done].
  intros H%IH. case_match; lia.
Qed.

Lemma occurrences_bind_le {A} k (f : A → list hashable) (l : list A) :
  Forall (λ x, ∀ k, occurrences k (f x) ≤ 1) l →
  occurrences k (l ≫= f) ≤ length l.
Proof.
  induction 1 as [|x l Hx _ IH]; [done|].
  rewrite bind_cons. unfold occurrences in *.
  rewrite filter_app, length_app. specialize (Hx k). simpl. lia.
Qed.

Lemma counts_le_length {A} (f : A → list hashable) (l : list A) item :
  Forall (λ x, ∀ k, occurrences k (f x) ≤ 1) l →
  item ∈ incr_all [] (l ≫= f) → item.2 ≤ length l.
Proof.
  intros Hl Hin. destruct item as [h c].
  apply item_le_count_of in Hin. simpl.
  rewrite count_of_incr_all in Hin. simpl in Hin.
  etrans; [exact Hin|]. by apply occurrences_bind_le.
Qed.

Lemma occurrences_short k hs : length hs ≤ 1 → occurrences k hs ≤ 1.
Proof. pose proof (occurrences_le k hs). lia. Qed.

(** The categories one point names: the hashed elements of a list, or the
    one hashed value; none when the point has none or cannot be read. *)
Definition point_categories (point : json) : list hashable :=
  match contribution_of point with
  | Ok c => c_categories c
  | Raise _ => []
  end.

Definition percentage_within (count n : nat) : Prop :=
  ∃ pct, percentage count n = ([Divide count n], Ok pct)
         ∧ (Qc_of_Z 0 ≤ pct)%Qc ∧ (pct ≤ Qc_of_Z 100)%Qc.

Lemma percentage_within_le count n :
  0 < n → count ≤ n → percentage_within count n.
Proof.
  intros. exists (percent count n).
  auto using percentage_Ok, percent_nonneg, percent_le_100.
Qed.

(** C1, as the code has it.  With at least one point, every percentage of
    the intelligence types, of the enrichment levels and of the data
    quality assessment lies between 0 and 100.  A percentage of the
    categories is never negative, and it is at most 100 when no point names
    the same category twice. *)
Theorem percentages_within_bounds (points : list json) (a : aggregate) :
  aggregate_points points = Ok a →
  0 < length points →
  (∀ item, item ∈ sorted_by_count (intelligence_types a) →
           percentage_within item.2 (length points))
  ∧ (∀ item, item ∈ sorted_by_count (enrichment_levels a) →
             percentage_within item.2 (length points))
  ∧ (∀ keys count, count_points keys points = Ok count →
                   percentage_within count (length points))
  ∧ (∀ item, item ∈ sorted_by_count (categories_dist a) →
       ∃ pct, percentage item.2 (length points)
              = ([Divide item.2 (length points)], Ok pct)
              ∧ (Qc_of_Z 0 ≤ pct)%Qc
              ∧ (Forall (λ p, NoDup (keys (point_categories p))) points →
                 (pct ≤ Qc_of_Z 100)%Qc)).
Proof.
  intros (cs & Hcs & ->)%aggregate_points_Ok Hn. simpl.
  pose proof (contributions_length _ _ Hcs) as Hlen.
  repeat split.
  - intros item Hin%elem_of_sorted_with.
    apply percentage_within_le; [done|]. rewrite <-Hlen.
    eapply counts_le_length; [|done].
    apply (contributions_Forall _ _ _ Hcs).
    intros p c _ (payload & _ & _ & _ & Hf & _)%contribution_of_Ok k.
    by eapply occurrences_short, field_of_length.
  - intros item Hin%elem_of_sorted_with.
    apply percentage_within_le; [done|]. rewrite <-Hlen.
    eapply counts_le_length; [|done].
    apply (contributions_Forall _ _ _ Hcs).
    intros p c _ (payload & _ & _ & _ & _ & _ & Hf & _)%contribution_of_Ok k.
    by eapply occurrences_short, field_of_length.
  - intros keys count Hc%count_points_le.
    by apply percentage_within_le.
  - intros item Hin%elem_of_sorted_with.
    exists (percent item.2 (length points)).
    split; [by apply percentage_Ok|]. split; [by apply percent_nonneg|].
    intros Hdistinct. apply percent_le_100; [done|]. rewrite <-Hlen.
    eapply counts_le_length; [|done].
    apply contributions_Forall2 in Hcs. clear Hin Hlen Hn.
    induction Hcs as [|p c points cs Hc _ IH]; [constructor|].
    apply Forall_cons in Hdistinct as [Hp Hps].
    constructor; [|by apply IH].
    intros k. apply occurrences_NoDup.
    unfold point_categories in Hp. by rewrite Hc in Hp.
Qed.

Definition one_intelligence_type : list json :=
  [JObj [("id", JInt 1);
         ("payload", JObj [("intelligence_type", JStr "k");
                           ("categories", JList [JStr "a"; JStr "b"])])]].

Lemma percentages_within_bounds_witness :
  (∀ item,
     item ∈ sorted_by_count [(HStr "k", 1)] →
     percentage_within item.2 (length one_intelligence_type))
  ∧ (∀ item,
       item ∈ sorted_by_count [] →
       percentage_within item.2 (length one_intelligence_type))
  ∧ (∀ keys count,
       count_points keys one_intelligence_type = Ok count →
       percentage_within count (length one_intelligence_type))
  ∧ (∀ item,
       item ∈ sorted_by_count [(HStr "a", 1); (HStr "b", 1)] →
       ∃ pct, percentage item.2 (length one_intelligence_type)
              = ([Divide item.2 (length one_intelligence_type)], Ok pct)
              ∧ (Qc_of_Z 0 ≤ pct)%Qc
              ∧ (Forall (λ p, NoDup (keys (point_categories p)))
                        one_intelligence_type →
                 (pct ≤ Qc_of_Z 100)%Qc)).
Proof.
  apply (percentages_within_bounds one_intelligence_type
           {| files_unique := [];
              categories_dist := [(HStr "a", 1); (HStr "b", 1)];
              intelligence_types := [(HStr "k", 1)];
              convergence_chains := []; enrichment_levels := [];
              convergence_scores := [];
              payload_fields := [HStr "intelligence_type";
                                 HStr "categories"] |}).
  - reflexivity.
  - simpl. lia.
Defined.

(** The claim C1 as it is stated fails for the categories: one point that
    names a category twice gives that category two of one point, 200%. *)
Lemma repeated_category_exceeds_100 :
  aggregate_points
    [JObj [("id", JInt 1);
           ("payload", JObj [("categories", JList [JStr "a"; JStr "a"])])]]
  = Ok {| files_unique := []; categories_dist := [(HStr "a", 2)];
          intelligence_types := []; convergence_chains := [];
          enrichment_levels := []; convergence_scores := [];
          payload_fields := [HStr "categories"] |}
  ∧ sorted_by_count [(HStr "a", 2)] = [(HStr "a", 2)]
  ∧ percentage 2 1 = ([Divide 2 1], Ok (Qc_of_Z 200))
  ∧ (Qc_of_Z 100 < Qc_of_Z 200)%Qc.
Proof.
  split; [reflexivity|]. split; [reflexivity|]. split; [|reflexivity].
  unfold percentage. simpl. do 2 f_equal. apply Qc_is_canon. reflexivity.
Qed.

(** ** No convergence chains (C7) *)

Lemma chains_of_absent payload :
  dict_has "convergenceChains" payload = false →
  chains_of payload = Ok ([], []).
Proof.
  unfold chains_of, extract_chains, dict_has.
  by destruct (dict_get "convergenceChains" payload).
Qed.

(** C7.  When no point carries [convergenceChains], no participant count
    is recorded, and the chain section prints its title, the line that no
    data was found and an empty line: it evaluates no statistic. *)
Theorem no_chains_no_statistics
    (fmt_1f : Qc → string) (points : list json) (a : aggregate) :
  aggregate_points points = Ok a →
  Forall (λ p, ∀ payload, get_payload p = Ok payload →
               dict_has "convergenceChains" payload = false) points →
  convergence_chains a = []
  ∧ chain_section fmt_1f (convergence_chains a)
    = ([Print "## Convergence Chain Analysis:";
        Print "- No convergence chains data found";
        Print EmptyString], Ok ()).
Proof.
  intros (cs & Hcs & ->)%aggregate_points_Ok Hno. simpl.
  assert (cs ≫= c_chains = []) as ->; [|done].
  apply contributions_Forall2 in Hcs.
  induction Hcs as [|p c points cs Hc _ IH]; [done|].
  apply Forall_cons in Hno as [Hp Hps].
  rewrite bind_cons, IH by done.
  apply contribution_of_Ok in Hc as (payload & Hpay & _ & _ & _ & Hch & _).
  rewrite (chains_of_absent _ (Hp _ Hpay)) in Hch.
  injection Hch as <- _. done.
Qed.

Lemma no_chains_no_statistics_witness :
  convergence_chains empty_aggregate = []
  ∧ chain_section (λ _, "?") (convergence_chains empty_aggregate)
    = ([Print "## Convergence Chain Analysis:";
        Print "- No convergence chains data found";
        Print EmptyString], Ok ()).
Proof.
  apply (no_chains_no_statistics (λ _, "?") [JObj [("id", JInt 7)]]).
  - reflexivity.
  - constructor; [|constructor]. by intros payload [= <-].
Defined.

(** ** File identities (C6) *)

Lemma file_of_Ok payload hs :
  file_of payload = Ok hs ↔
  (∃ v h, (dict_get "sourceFile" payload = Some v
           ∨ (dict_get "sourceFile" payload = None
              ∧ dict_get "file" payload = Some v))
          ∧ py_hash v = Ok h ∧ hs = [h])
  ∨ (dict_get "sourceFile" payload = None ∧ dict_get "file" payload = None
     ∧ hs = []).
Proof.
  unfold file_of, hash1.
  destruct (dict_get "sourceFile" payload) as [v|];
    [|destruct (dict_get "file" payload) as [v|]];
    try destruct (py_hash v) as [h|] eqn:Hh; simpl;
    (split;
     [ intros [= <-]; first [by right | left; exists v, h; by auto]
     | intros [(v' & h' & [H|[H1 H2]] & Hh' & ->)|(H1 & H2 & ->)];
       simplify_eq; congruence ]).
Qed.

Lemma elem_of_contributions (Q : contribution → Prop) points cs :
  contributions points = Ok cs →
  (∃ c, c ∈ cs ∧ Q c)
  ↔ ∃ p c, p ∈ points ∧ contribution_of p = Ok c ∧ Q c.
Proof.
  intros H%contributions_Forall2.
  induction H as [|p c points cs Hc _ IH].
  { split; [intros (? & []%elem_of_nil & _)|intros (? & ? & []%elem_of_nil & _)]. }
  split.
  - intros (c' & [->|Hin]%elem_of_cons & HQ).
    + exists p, c. split; [left|done].
    + destruct (proj1 IH) as (p' & c'' & ? & ? & ?); [by eauto|].
      exists p', c''. split; [by right|done].
  - intros (p' & c' & [->|Hin]%elem_of_cons & Hc' & HQ).
    + exists c. split; [left|]. congruence.
    + destruct (proj2 IH) as (c'' & ? & ?); [by eauto|].
      exists c''. split; [by right|done].
Qed.

(** C6.  A payload with [sourceFile] gives that value; without it, a
    payload with [file] gives that value; with neither the set of files is
    left as it is.  The set holds no value twice: adding a member again
    changes nothing, and after the loop the file identities are pairwise
    distinct and are exactly the values the points give. *)
Theorem file_identity_extraction :
  (∀ payload files,
     (∀ v, dict_get "sourceFile" payload = Some v →
           extract_file payload files = (h ← py_hash v; Ok (set_add h files)))
     ∧ (∀ v, dict_get "sourceFile" payload = None →
             dict_get "file" payload = Some v →
             extract_file payload files
             = (h ← py_hash v; Ok (set_add h files)))
     ∧ (dict_get "sourceFile" payload = None →
        dict_get "file" payload = None →
        extract_file payload files = Ok files))
  ∧ (∀ h files, key_of h ∈ keys files → set_add h files = files)
  ∧ (∀ points a,
       aggregate_points points = Ok a →
       NoDup (keys (files_unique a))
       ∧ ∀ k, k ∈ keys (files_unique a) ↔
              ∃ p payload v h,
                p ∈ points ∧ get_payload p = Ok payload
                ∧ (dict_get "sourceFile" payload = Some v
                   ∨ (dict_get "sourceFile" payload = None
                      ∧ dict_get "file" payload = Some v))
                ∧ py_hash v = Ok h ∧ key_of h = k).
Proof.
  split; [|split].
  - intros payload files. unfold extract_file. repeat split.
    + by intros v ->.
    + by intros v -> ->.
    + by intros -> ->.
  - apply set_add_member.
  - intros points a (cs & Hcs & ->)%aggregate_points_Ok. simpl.
    split; [apply NoDup_add_all; constructor|].
    intros k. rewrite keys_add_all. unfold keys at 1 2.
    rewrite fmap_nil, elem_of_nil, list_elem_of_fmap.
    setoid_rewrite list_elem_of_bind.
    split.
    + intros [[]|(h & -> & c & Hh & Hc)].
      destruct (proj1 (elem_of_contributions
                         (λ c, h ∈ c_files c) _ _ Hcs))
        as (p & c' & Hp & Hc' & Hh'); [by eauto|].
      apply contribution_of_Ok in Hc' as (payload & Hpay & Hf & _).
      apply file_of_Ok in Hf as [(v & h' & Hv & Hhash & Heq)|(_ & _ & Heq)];
        rewrite Heq in Hh'.
      * apply list_elem_of_singleton in Hh' as ->.
        by exists p, payload, v, h'.
      * by apply elem_of_nil in Hh'.
    + intros (p & payload & v & h & Hp & Hpay & Hv & Hhash & <-).
      right. exists h. split; [done|].
      destruct (contribution_of p) as [c|e] eqn:Hc.
      * destruct (proj2 (elem_of_contributions
                           (λ c, h ∈ c_files c) _ _ Hcs))
          as (c' & ? & ?); [|by exists c'].
        exists p, c. split; [done|]. split; [done|].
        apply contribution_of_Ok in Hc as (payload' & Hpay' & Hf & _).
        assert (payload' = payload) as -> by congruence.
        assert (file_of payload = Ok [h]) as Hf'.
        { apply file_of_Ok. left. by exists v, h. }
        rewrite Hf' in Hf. injection Hf as <-. left.
      * apply contributions_Forall2 in Hcs.
        apply list_elem_of_lookup in Hp as [i Hi].
        destruct (Forall2_lookup_l _ _ _ _ _ Hcs Hi) as (c & _ & Hc').
        congruence.
Qed.

Lemma file_identity_extraction_witness :
  set_add (HStr "a.md") [HStr "b.md"; HStr "a.md"]
  = [HStr "b.md"; HStr "a.md"].
Proof.
  apply (proj1 (proj2 file_identity_extraction)).
  apply list_elem_of_further, list_elem_of_here.
Defined.

(** ** [sorted] of a set (C8) *)

Lemma ascii_compare_refl a : Ascii.compare a a = Eq.
Proof. unfold Ascii.compare. apply N.compare_refl. Qed.

Lemma ascii_compare_trans a b c :
  Ascii.compare a b = Lt → Ascii.compare b c = Lt → Ascii.compare a c = Lt.
Proof.
  unfold Ascii.compare. rewrite !N.compare_lt_iff. apply N.lt_trans.
Qed.

Lemma string_compare_refl s : String.compare s s = Eq.
Proof. induction s as [|a s IH]; simpl; [done|]. by rewrite ascii_compare_refl. Qed.

Lemma string_compare_trans s t u :
  String.compare s t = Lt → String.compare t u = Lt → String.compare s u = Lt.
Proof.
  revert t u. induction s as [|a s IH]; intros [|b t] [|c u]; simpl; try done.
  destruct (Ascii.compare a b) eqn:Hab; try done;
    destruct (Ascii.compare b c) eqn:Hbc; try done.
  - apply Ascii.compare_eq_iff in Hab as ->.
    apply Ascii.compare_eq_iff in Hbc as ->.
    rewrite ascii_compare_refl. apply IH.
  - apply Ascii.compare_eq_iff in Hab as ->. by rewrite Hbc.
  - apply Ascii.compare_eq_iff in Hbc as <-. by rewrite Hab.
  - by rewrite (ascii_compare_trans _ _ _ Hab Hbc).
Qed.

Lemma string_ltb_false s t :
  String.ltb s t = false ↔ s = t ∨ String.ltb t s = true.
Proof.
  unfold String.ltb. rewrite (String.compare_antisym t s).
  destruct (String.compare s t) eqn:H; simpl; split; try done; auto.
  - apply String.compare_eq_iff in H. auto.
  - intros [->|?]; [|done]. by rewrite string_compare_refl in H.
Qed.

Lemma string_ltb_trans s t u :
  String.ltb s t = true → String.ltb t u = true → String.ltb s u = true.
Proof.
  unfold String.ltb. intros Hst Htu.
  destruct (String.compare s t) eqn:H1; try done.
  destruct (String.compare t u) eqn:H2; try done.
  by rewrite (string_compare_trans _ _ _ H1 H2).
Qed.

Lemma string_ltb_irrefl s : String.ltb s s = false.
Proof. unfold String.ltb. by rewrite string_compare_refl. Qed.

(** The kinds of keys: values of different kinds do not compare, and
    [None] does not compare at all. *)
Definition kind (h : hashable) : nat :=
  match key_of h with
  | KNone => 0
  | KNum _ => 1
  | KStr _ => 2
  end.

(** A strict total order on the keys that agrees with [<] where [<] is
    defined. *)
Definition key_ltb (a b : hashable) : bool :=
  match key_of a, key_of b with
  | KNum x, KNum y => bool_decide (x < y)%Qc
  | KStr s, KStr t => String.ltb s t
  | _, _ => kind a <? kind b
  end.

Lemma py_lt_same a b :
  kind a = kind b → kind a ≠ 0 → py_lt a b = Ok (key_ltb a b).
Proof.
  unfold py_lt, key_ltb, kind.
  by destruct (key_of a), (key_of b).
Qed.

Lemma py_lt_other a b :
  kind a ≠ kind b ∨ kind a = 0 → py_lt a b = Raise TypeError.
Proof.
  unfold py_lt, kind. destruct (key_of a), (key_of b); naive_solver.
Qed.

Lemma key_ltb_asym a b : key_ltb a b = true → key_ltb b a = false.
Proof.
  unfold key_ltb, kind. destruct (key_of a), (key_of b); simpl; try done.
  - rewrite bool_decide_eq_true, bool_decide_eq_false.
    intros H. by apply Qcle_not_lt, Qclt_le_weak.
  - intros H. apply string_ltb_false. by right.
Qed.

Lemma key_ltb_false a b :
  key_ltb a b = false ↔ key_of a = key_of b ∨ key_ltb b a = true.
Proof.
  unfold key_ltb, kind. destruct (key_of a), (key_of b); simpl;
    try (split; [auto|]; intros [[=]|[=]]; done).
  - rewrite bool_decide_eq_false, bool_decide_eq_true. split.
    + intros [?| ->]%Qcnot_lt_le%Qcle_lt_or_eq; auto.
    + intros [[= ->]|?].
      * apply Qcle_not_lt, Qcle_refl.
      * by apply Qcle_not_lt, Qclt_le_weak.
  - rewrite string_ltb_false. naive_solver.
Qed.

Lemma key_ltb_trans a b c :
  key_ltb a b = true → key_ltb b c = true → key_ltb a c = true.
Proof.
  unfold key_ltb, kind.
  destruct (key_of a), (key_of b), (key_of c); simpl; try done.
  - rewrite !bool_decide_eq_true. apply Qclt_trans.
  - apply string_ltb_trans.
Qed.

Lemma key_ltb_eq a a' b :
  key_of a = key_of a' → key_ltb a b = key_ltb a' b ∧ key_ltb b a = key_ltb b a'.
Proof. unfold key_ltb, kind. by intros ->. Qed.

#[local] Instance key_in_order_trans : Transitive (in_order key_ltb).
Proof.
  intros a b c. unfold in_order. rewrite !key_ltb_false.
  intros [Hab|Hab] [Hbc|Hbc].
  - left. congruence.
  - right. by rewrite (proj1 (key_ltb_eq _ _ c Hab)) in Hbc.
  - right. by rewrite (proj2 (key_ltb_eq _ _ a Hbc)).
  - right. by eapply key_ltb_trans.
Qed.

Lemma key_in_order_antisym a b :
  in_order key_ltb a b → in_order key_ltb b a → key_of a = key_of b.
Proof.
  unfold in_order. rewrite !key_ltb_false.
  intros [?|Hab] [?|Hba]; try done.
  apply key_ltb_asym in Hab. congruence.
Qed.

Lemma keys_inj l x y :
  NoDup (keys l) → x ∈ l → y ∈ l → key_of x = key_of y → x = y.
Proof.
  unfold keys. induction l as [|z l IH]; simpl.
  { by intros _ ?%elem_of_nil. }
  rewrite NoDup_cons. intros [Hz Hl] Hx Hy Heq.
  apply elem_of_cons in Hx as [->|Hx]; apply elem_of_cons in Hy as [->|Hy].
  - done.
  - destruct Hz. rewrite Heq. by apply list_elem_of_fmap_2.
  - destruct Hz. rewrite <-Heq. by apply list_elem_of_fmap_2.
  - by apply IH.
Qed.

(** All members are numbers, or all members are strings. *)
Definition uniform (l : list hashable) : Prop :=
  ∃ c, c ≠ 0 ∧ Forall (λ h, kind h = c) l.

Lemma uniform_cons x l :
  uniform (x :: l) ↔ kind x ≠ 0 ∧ Forall (λ h, kind h = kind x) l.
Proof.
  unfold uniform. setoid_rewrite Forall_cons. split.
  - intros (c & Hc & <- & Hl). done.
  - intros [Hx Hl]. by exists (kind x).
Qed.

Lemma uniform_dec l : uniform l ∨ ¬ uniform l.
Proof.
  destruct l as [|x l].
  { left. exists 1. by split; [|constructor]. }
  rewrite uniform_cons.
  destruct (decide (kind x ≠ 0 ∧ Forall (λ h, kind h = kind x) l)); auto.
Qed.

Lemma uniform_Permutation l l' : l ≡ₚ l' → uniform l → uniform l'.
Proof. intros H (c & Hc & Hl). exists c. by rewrite <-H. Qed.

Lemma sorted_insert_uniform c x l :
  c ≠ 0 → kind x = c → Forall (λ h, kind h = c) l →
  sorted_insert x l = Ok (insert_sorted key_ltb x l).
Proof.
  intros Hc Hx. induction 1 as [|y l Hy _ IH]; simpl; [done|].
  rewrite py_lt_same by congruence. simpl.
  destruct (key_ltb y x); [|done]. by rewrite IH.
Qed.

Lemma py_sorted_uniform l :
  uniform l → py_sorted l = Ok (sorted_with key_ltb l).
Proof.
  intros (c & Hc & Hl). induction Hl as [|x l Hx Hl IH]; simpl; [done|].
  rewrite IH. simpl. apply (sorted_insert_uniform c); [done..|].
  by rewrite sorted_with_Permutation.
Qed.

Lemma py_sorted_not_uniform l :
  2 ≤ length l → ¬ uniform l → py_sorted l = Raise TypeError.
Proof.
  induction l as [|x l IH]; simpl; [lia|]. intros Hlen Hx.
  destruct (uniform_dec l) as [Hl|Hl].
  - rewrite (py_sorted_uniform _ Hl). cbn [mbind result_bind].
    pose proof (sorted_with_Permutation key_ltb l) as Hperm.
    destruct (sorted_with key_ltb l) as [|z r] eqn:Hs.
    { apply Permutation_nil_l in Hperm as <-. simpl in Hlen. lia. }
    cbn [sorted_insert]. rewrite py_lt_other; [done|].
    destruct (decide (kind z = kind x)) as [Hzx|]; [|by left]. right.
    destruct (decide (kind z = 0)) as [|Hz]; [done|]. destruct Hx.
    destruct Hl as (c & Hc & Hl).
    assert (kind z = c) as Hzc.
    { rewrite <-Hperm in Hl. by apply Forall_cons in Hl as [? _]. }
    apply uniform_cons. rewrite <-Hzx. split; [done|]. by rewrite Hzc.
  - destruct l as [|y [|y' l]]; simpl in *; [lia| |].
    + rewrite py_lt_other; [done|]. right.
      destruct (decide (kind y = 0)) as [|Hy]; [done|]. destruct Hl.
      apply uniform_cons. by split; [|constructor].
    + rewrite IH; [done|lia|done].
Qed.

(** [sorted] of a set does not depend on the order in which the set is
    enumerated. *)
Lemma py_sorted_Permutation l l' :
  NoDup (keys l) → l ≡ₚ l' → py_sorted l = py_sorted l'.
Proof.
  intros Hnd Hperm.
  destruct (decide (length l < 2)) as [Hshort|Hlong].
  - destruct l as [|x [|y l]]; simpl in Hshort; [| |lia].
    + by apply Permutation_nil_l in Hperm as <-.
    + by apply Permutation_singleton_l in Hperm as <-.
  - destruct (uniform_dec l) as [Hl|Hl].
    + rewrite !py_sorted_uniform by eauto using uniform_Permutation.
      f_equal. apply sorted_with_unique; [apply key_ltb_asym|apply _| |done].
      intros x y Hx Hy Hxy Hyx. apply (keys_inj l); [done..|].
      by apply key_in_order_antisym.
    + rewrite !py_sorted_not_uniform; [done|..].
      * rewrite <-Hperm. lia.
      * intros Hl'. apply Hl. by eapply uniform_Permutation.
      * lia.
      * done.
Qed.

(** ** Determinism (C8) *)

Lemma aggregate_sets_NoDup points a :
  aggregate_points points = Ok a →
  NoDup (keys (files_unique a)) ∧ NoDup (keys (payload_fields a)).
Proof.
  intros (cs & _ & ->)%aggregate_points_Ok. simpl.
  split; apply NoDup_add_all; constructor.
Qed.

Lemma py_sorted_set_iter (iter iter' : pyset → list hashable) s :
  (∀ s, iter s ≡ₚ s) → (∀ s, iter' s ≡ₚ s) → NoDup (keys s) →
  py_sorted (iter s) = py_sorted (iter' s).
Proof.
  intros H H' Hs. apply py_sorted_Permutation.
  - unfold keys. by rewrite H.
  - by rewrite H, H'.
Qed.

Section Determinism.

Variable py_repr : json → string.
Variable fmt_1f fmt_2f fmt_sqrt_2f : Qc → string.
Variables iter iter' : pyset → list hashable.
Hypothesis iter_perm : ∀ s, iter s ≡ₚ s.
Hypothesis iter'_perm : ∀ s, iter' s ≡ₚ s.

(** The report does not depend on the order in which sets are
    enumerated: each set is only counted, or sorted before it is
    printed. *)
Lemma report_set_iter points a :
  NoDup (keys (files_unique a)) → NoDup (keys (payload_fields a)) →
  report py_repr fmt_1f fmt_2f fmt_sqrt_2f iter points a
  = report py_repr fmt_1f fmt_2f fmt_sqrt_2f iter' points a.
Proof.
  intros Hfiles Hfields. unfold report, overview_section, files_section.
  by rewrite (py_sorted_set_iter iter iter' (payload_fields a)),
    (py_sorted_set_iter iter iter' (files_unique a)).
Qed.

Lemma main_set_iter batches :
  main py_repr fmt_1f fmt_2f fmt_sqrt_2f iter batches
  = main py_repr fmt_1f fmt_2f fmt_sqrt_2f iter' batches.
Proof.
  unfold main.
  destruct (aggregate_points (load_points batches)) as [a|e] eqn:Ha;
    [|done].
  destruct (aggregate_sets_NoDup _ _ Ha) as [Hfiles Hfields].
  unfold lift. rewrite !io_bind_Ok. by rewrite report_set_iter.
Qed.

End Determinism.

(** C8.  Two runs on the same documents give the same output, whatever
    order the sets are enumerated in by each run: the events of the two
    runs, the lines they print and the exception that ends them, if any,
    are the same. *)
Theorem report_deterministic
    (py_repr : json → string) (fmt_1f fmt_2f fmt_sqrt_2f : Qc → string)
    (iter iter' : pyset → list hashable) (batches : nat → list json) :
  (∀ s, iter s ≡ₚ s) → (∀ s, iter' s ≡ₚ s) →
  main py_repr fmt_1f fmt_2f fmt_sqrt_2f iter batches
  = main py_repr fmt_1f fmt_2f fmt_sqrt_2f iter' batches
  ∧ stdout (main py_repr fmt_1f fmt_2f fmt_sqrt_2f iter batches)
    = stdout (main py_repr fmt_1f fmt_2f fmt_sqrt_2f iter' batches).
Proof.
  intros H H'.
  by rewrite (main_set_iter py_repr fmt_1f fmt_2f fmt_sqrt_2f iter iter').
Qed.

Lemma report_deterministic_witness :
  main (λ _, "?") (λ _, "?") (λ _, "?") (λ _, "?") id two_documents
  = main (λ _, "?") (λ _, "?") (λ _, "?") (λ _, "?") reverse two_documents
  ∧ stdout (main (λ _, "?") (λ _, "?") (λ _, "?") (λ _, "?") id
              two_documents)
    = stdout (main (λ _, "?") (λ _, "?") (λ _, "?") (λ _, "?") reverse
                two_documents).
Proof.
  apply report_deterministic.
  - intros s. reflexivity.
  - intros s. apply reverse_Permutation.
Defined.

(** * Further properties of the aggregation *)

(** ** Category counting *)

Lemma hashes_Ok_inv cats d d' :
  for_each count_value d cats = Ok d' →
  ∃ hs, hashes cats = Ok hs ∧ d' = incr_all d hs.
Proof.
  rewrite for_each_count_value.
  destruct (hashes cats) as [hs|]; simpl; [|done].
  intros [= <-]. by exists hs.
Qed.

(** X1.  A [categories] list adds one to the count of a category for each
    of its occurrences in the list and leaves the other counts as they
    are; a single value adds one to that category alone; a payload without
    [categories] leaves the counts as they are. *)
Theorem categories_counted (payload : dict) (d d' : counter) :
  count_categories payload d = Ok d' →
  (∀ cats, dict_get "categories" payload = Some (JList cats) →
     ∃ hs, hashes cats = Ok hs ∧ length hs = length cats
           ∧ ∀ k, count_of k d' = count_of k d + occurrences k hs)
  ∧ (∀ v, dict_get "categories" payload = Some v → (∀ l, v ≠ JList l) →
       ∃ h, py_hash v = Ok h
            ∧ ∀ k, count_of k d'
                   = count_of k d + (if decide (key_of h = k) then 1 else 0))
  ∧ (dict_get "categories" payload = None → d' = d).
Proof.
  unfold count_categories. intros H. repeat split.
  - intros cats Hc. rewrite Hc in H.
    apply hashes_Ok_inv in H as (hs & Hhs & ->). exists hs.
    split; [done|]. split; [|intros k; apply count_of_incr_all].
    clear -Hhs. revert hs Hhs. induction cats as [|v cats IH]; simpl.
    { by intros hs [= <-]. }
    intros hs. destruct (py_hash v); simpl; [|done].
    destruct (hashes cats) as [hs'|]; simpl; [|done].
    intros [= <-]. simpl. f_equal. by apply IH.
  - intros v Hv Hlist. rewrite Hv in H.
    assert (count_value d v = Ok d') as H'.
    { destruct v; try done. by destruct (Hlist l). }
    unfold count_value in H'. destruct (py_hash v) as [h|]; simpl in H';
      [|done].
    injection H' as <-. exists h. split; [done|].
    intros k. apply count_of_incr.
  - intros Hnone. rewrite Hnone in H. by injection H.
Qed.

Lemma categories_counted_witness :
  ∃ hs, hashes [JStr "a"; JStr "b"] = Ok hs
        ∧ length hs = length [JStr "a"; JStr "b"]
        ∧ ∀ k, count_of k [(HStr "a", 4); (HStr "b", 1)]
               = count_of k [(HStr "a", 3)] + occurrences k hs.
Proof.
  apply (proj1 (categories_counted
                  [("categories", JList [JStr "a"; JStr "b"])]
                  [(HStr "a", 3)] [(HStr "a", 4); (HStr "b", 1)] eq_refl)).
  reflexivity.
Defined.

(** ** The two spellings of a field, and the data quality counts *)

Fixpoint mass (d : counter) : nat :=
  match d with
  | [] => 0
  | (_, c) :: d' => c + mass d'
  end.

Lemma mass_incr h d : mass (incr h d) = S (mass d).
Proof.
  induction d as [|[h' c] d IH]; simpl; [done|].
  destruct (py_eqb h' h); simpl; [done|]. rewrite IH. lia.
Qed.

Lemma mass_incr_all d hs : mass (incr_all d hs) = mass d + length hs.
Proof.
  revert d. induction hs as [|h hs IH]; intros d; simpl; [lia|].
  rewrite IH, mass_incr. lia.
Qed.

Lemma field_of_indicator k1 k2 payload hs :
  field_of k1 k2 payload = Ok hs →
  length hs = if existsb (λ k, dict_has k payload) [k1; k2] then 1 else 0.
Proof.
  unfold field_of, dict_has. simpl.
  destruct (dict_get k1 payload); simpl; [apply hash1_length|].
  destruct (dict_get k2 payload); simpl; [apply hash1_length|].
  by intros [= <-].
Qed.

Lemma file_of_field_of payload : file_of payload = field_of "sourceFile" "file" payload.
Proof. done. Qed.

Lemma count_points_from keys points start :
  for_each
    (λ n p, payload ← get_payload p;
            Ok (if existsb (λ k, dict_has k payload) keys then S n else n))
    start points
  = (n ← count_points keys points; Ok (start + n)).
Proof.
  unfold count_points. revert start.
  induction points as [|p points IH]; intros start; simpl.
  { f_equal. lia. }
  destruct (get_payload p) as [payload|]; simpl; [|done].
  destruct (existsb _ keys);
    [rewrite (IH (S start)), (IH 1)|rewrite (IH start), (IH 0)];
    (destruct (for_each _ 0 points); simpl; [|done]); f_equal; lia.
Qed.

Lemma count_points_contributions k1 k2 (f : contribution → list hashable)
    points cs :
  contributions points = Ok cs →
  (∀ p c payload, contribution_of p = Ok c → get_payload p = Ok payload →
                  field_of k1 k2 payload = Ok (f c)) →
  count_points [k1; k2] points = Ok (length (cs ≫= f)).
Proof.
  intros Hcs%contributions_Forall2 Hf.
  induction Hcs as [|p c points cs Hc _ IH]; [done|].
  unfold count_points. cbn [for_each].
  pose proof Hc as (payload & Hp & _)%contribution_of_Ok.
  rewrite Hp. cbn [mbind result_bind].
  rewrite count_points_from, IH. cbn [mbind result_bind].
  rewrite bind_cons, length_app.
  by rewrite (field_of_indicator _ _ _ _ (Hf _ _ _ Hc Hp)).
Qed.

(** X2.  Of the two spellings of a field the first one present is counted
    and the second is ignored, so a point adds exactly one to the counts
    when it has either spelling: after the loop the counts of the
    intelligence types add up to the number of points with intelligence
    type of the data quality assessment. *)
Theorem intelligence_counts_add_up (points : list json) (a : aggregate) :
  aggregate_points points = Ok a →
  (∀ payload d v,
     dict_get "intelligence_type" payload = Some v →
     count_field "intelligence_type" "intelligenceType" payload d
     = count_value d v)
  ∧ count_points ["intelligence_type"; "intelligenceType"] points
    = Ok (mass (intelligence_types a))
  ∧ count_points ["enrichment_level"; "enrichmentLevel"] points
    = Ok (mass (enrichment_levels a)).
Proof.
  intros (cs & Hcs & ->)%aggregate_points_Ok. simpl.
  split; [|split].
  - intros payload d v Hv. unfold count_field. by rewrite Hv.
  - rewrite mass_incr_all. simpl.
    apply (count_points_contributions _ _ _ _ _ Hcs).
    intros p c payload (payload' & Hp' & _ & _ & Hf & _)%contribution_of_Ok Hp.
    congruence.
  - rewrite mass_incr_all. simpl.
    apply (count_points_contributions _ _ _ _ _ Hcs).
    intros p c payload
      (payload' & Hp' & _ & _ & _ & _ & Hf & _)%contribution_of_Ok Hp.
    congruence.
Qed.

Lemma intelligence_counts_add_up_witness :
  count_points ["intelligence_type"; "intelligenceType"]
    one_intelligence_type
  = Ok (mass [(HStr "k", 1)]).
Proof.
  apply (intelligence_counts_add_up one_intelligence_type
           {| files_unique := [];
              categories_dist := [(HStr "a", 1); (HStr "b", 1)];
              intelligence_types := [(HStr "k", 1)];
              convergence_chains := []; enrichment_levels := [];
              convergence_scores := [];
              payload_fields := [HStr "intelligence_type";
                                 HStr "categories"] |}).
  reflexivity.
Defined.

(** X3.  There are at most as many unique files as points with file
    information: the number printed under the data overview never exceeds
    the count printed by the data quality assessment. *)
Theorem unique_files_le_points_with_files (points : list json) (a : aggregate) :
  aggregate_points points = Ok a →
  ∃ with_files,
    count_points ["sourceFile"; "file"] points = Ok with_files
    ∧ length (files_unique a) ≤ with_files
    ∧ with_files ≤ length points.
Proof.
  intros (cs & Hcs & ->)%aggregate_points_Ok. simpl.
  exists (length (cs ≫= c_files)). split; [|split].
  - apply (count_points_contributions _ _ _ _ _ Hcs).
    intros p c payload (payload' & Hp' & Hf & _)%contribution_of_Ok Hp.
    rewrite <-file_of_field_of. congruence.
  - etrans; [apply length_add_all|]. simpl. lia.
  - by apply files_length.
Qed.

Lemma unique_files_le_points_with_files_witness :
  ∃ with_files,
    count_points ["sourceFile"; "file"] (load_points two_documents)
    = Ok with_files
    ∧ length (files_unique two_documents_aggregate) ≤ with_files
    ∧ with_files ≤ length (load_points two_documents).
Proof.
  apply unique_files_le_points_with_files. reflexivity.
Defined.

(** ** Exceptions of the loop *)

Lemma py_hash_Raise v e : py_hash v = Raise e → e = TypeError.
Proof. destruct v; simpl; congruence. Qed.

Lemma hash1_Raise v e : hash1 v = Raise e → e = TypeError.
Proof.
  unfold hash1. destruct (py_hash v) eqn:H; simpl; [done|].
  intros [= <-]. by eapply py_hash_Raise.
Qed.

Lemma hashes_Raise vs e : hashes vs = Raise e → e = TypeError.
Proof.
  induction vs as [|v vs IH]; simpl; [done|].
  destruct (py_hash v) eqn:H; simpl.
  - destruct (hashes vs); simpl; [done|]. intros [= <-]. by apply IH.
  - intros [= <-]. by eapply py_hash_Raise.
Qed.

Lemma field_of_Raise k1 k2 payload e :
  field_of k1 k2 payload = Raise e → e = TypeError.
Proof.
  unfold field_of. repeat case_match; try done; apply hash1_Raise.
Qed.

Lemma categories_of_Raise payload e :
  categories_of payload = Raise e → e = TypeError.
Proof.
  unfold categories_of.
  repeat case_match; try done; first [apply hashes_Raise|apply hash1_Raise].
Qed.

Lemma py_contains_Raise k c e : py_contains k c = Raise e → e = TypeError.
Proof. destruct c; simpl; congruence. Qed.

Lemma py_len_Raise v e : py_len v = Raise e → e = TypeError.
Proof. destruct v; simpl; congruence. Qed.

(** A key that [in] has found can be read, unless the container is not a
    dict: the guarded [chain[k]] never raises [KeyError]. *)
Lemma py_getitem_guarded k c e :
  py_contains k c = Ok true → py_getitem c k = Raise e → e = TypeError.
Proof.
  destruct c; simpl; try congruence.
  unfold dict_has. destruct (dict_get k kvs); congruence.
Qed.

Lemma record_chain_Raise acc chain e :
  record_chain acc chain = Raise e → e = TypeError.
Proof.
  unfold record_chain.
  destruct (py_contains "participants" chain) as [[]|] eqn:Hp; simpl;
    [| |intros [= <-]; by eapply py_contains_Raise].
  - destruct (py_getitem chain "participants") as [p|] eqn:Hg; simpl;
      [|intros [= <-]; by eapply py_getitem_guarded].
    destruct (py_len p) eqn:Hl; simpl;
      [|intros [= <-]; by eapply py_len_Raise].
    destruct (py_contains "convergenceScore" chain) as [[]|] eqn:Hs; simpl;
      [|done|intros [= <-]; by eapply py_contains_Raise].
    destruct (py_getitem chain "convergenceScore") eqn:Hg'; simpl; [done|].
    intros [= <-]. by eapply py_getitem_guarded.
  - destruct (py_contains "convergenceScore" chain) as [[]|] eqn:Hs; simpl;
      [|done|intros [= <-]; by eapply py_contains_Raise].
    destruct (py_getitem chain "convergenceScore") eqn:Hg'; simpl; [done|].
    intros [= <-]. by eapply py_getitem_guarded.
Qed.

Lemma for_each_record_chain_Raise acc chains e :
  for_each record_chain acc chains = Raise e → e = TypeError.
Proof.
  revert acc. induction chains as [|chain chains IH]; intros acc; simpl.
  { done. }
  destruct (record_chain acc chain) eqn:H; simpl; [apply IH|].
  intros [= <-]. by eapply record_chain_Raise.
Qed.

Lemma chains_of_Raise payload e : chains_of payload = Raise e → e = TypeError.
Proof.
  unfold chains_of, extract_chains.
  repeat case_match; try done. apply for_each_record_chain_Raise.
Qed.

Lemma get_payload_Raise point e :
  get_payload point = Raise e → e = AttributeError.
Proof. unfold get_payload. repeat case_match; congruence. Qed.

Lemma contribution_of_Raise point e :
  contribution_of point = Raise e →
  (get_payload point = Raise AttributeError ∧ e = AttributeError)
  ∨ (∃ payload, get_payload point = Ok payload ∧ e = TypeError).
Proof.
  unfold contribution_of.
  destruct (get_payload point) as [payload|e'] eqn:Hp; simpl.
  - intros H. right. exists payload. split; [done|]. revert H.
    destruct (file_of payload) eqn:H1; simpl;
      [|intros [= <-]; rewrite file_of_field_of in H1;
        by eapply field_of_Raise].
    destruct (categories_of payload) eqn:H2; simpl;
      [|intros [= <-]; by eapply categories_of_Raise].
    destruct (field_of "intelligence_type" _ payload) eqn:H3; simpl;
      [|intros [= <-]; by eapply field_of_Raise].
    destruct (chains_of payload) eqn:H4; simpl;
      [|intros [= <-]; by eapply chains_of_Raise].
    destruct (field_of "enrichment_level" _ payload) eqn:H5; simpl; [done|].
    intros [= <-]. by eapply field_of_Raise.
  - intros [= <-]. left. apply get_payload_Raise in Hp as Hp'. by subst.
Qed.

Lemma contributions_Raise points e :
  contributions points = Raise e →
  ∃ p, p ∈ points ∧ contribution_of p = Raise e.
Proof.
  induction points as [|p points IH]; simpl; [done|].
  destruct (contribution_of p) eqn:Hp; simpl.
  - destruct (contributions points); simpl; [done|].
    intros [= <-]. destruct (IH eq_refl) as (p' & ? & ?).
    exists p'. split; [by right|done].
  - intros [= <-]. exists p. split; [left|done].
Qed.

(** X4.  The loop ends early in two ways only: with [AttributeError], on
    a point that is not an object or whose payload is not an object, and
    with [TypeError], on a point whose payload holds a value that cannot
    be hashed or a chain that cannot be read.  It never ends with
    [KeyError]: every key it reads has been tested first. *)
Theorem aggregation_exceptions (points : list json) (e : exn) :
  aggregate_points points = Raise e →
  ∃ p, p ∈ points
       ∧ ((get_payload p = Raise AttributeError ∧ e = AttributeError)
          ∨ (∃ payload, get_payload p = Ok payload ∧ e = TypeError)).
Proof.
  unfold aggregate_points. rewrite for_each_process_point.
  destruct (contributions points) eqn:H; simpl; [done|].
  intros [= <-]. apply contributions_Raise in H as (p & Hp & Hc).
  exists p. split; [done|]. by apply contribution_of_Raise.
Qed.

Lemma aggregation_exceptions_witness :
  ∃ p, p ∈ [JObj [("id", JInt 1);
                  ("payload", JObj [("sourceFile", JList [])])]]
       ∧ ((get_payload p = Raise AttributeError ∧ TypeError = AttributeError)
          ∨ (∃ payload, get_payload p = Ok payload ∧ TypeError = TypeError)).
Proof. apply aggregation_exceptions. reflexivity. Defined.

(** ** The field catalog *)

Lemma dict_has_fst k (d : dict) : dict_has k d = true ↔ k ∈ d.*1.
Proof.
  unfold dict_has. induction d as [|[k' v] d IH]; simpl.
  { rewrite elem_of_nil. naive_solver. }
  rewrite elem_of_cons. destruct (String.eqb_spec k' k) as [->|Hne].
  - naive_solver.
  - rewrite IH. naive_solver.
Qed.

(** X5.  After the loop the field catalog holds each payload key of each
    point, once: a name is in the catalog exactly when some point has it
    as a payload key. *)
Theorem field_catalog_complete (points : list json) (a : aggregate) :
  aggregate_points points = Ok a →
  NoDup (keys (payload_fields a))
  ∧ ∀ k, k ∈ keys (payload_fields a) ↔
         ∃ name p payload,
           k = KStr name ∧ p ∈ points ∧ get_payload p = Ok payload
           ∧ dict_has name payload = true.
Proof.
  intros (cs & Hcs & ->)%aggregate_points_Ok. simpl.
  split; [apply NoDup_add_all; constructor|].
  intros k. rewrite keys_add_all. unfold keys at 1 2.
  rewrite fmap_nil, elem_of_nil, list_elem_of_fmap.
  setoid_rewrite list_elem_of_bind. split.
  - intros [[]|(h & -> & c & Hh & Hc)].
    destruct (proj1 (elem_of_contributions (λ c, h ∈ c_fields c) _ _ Hcs))
      as (p & c' & Hp & Hc' & Hh'); [by eauto|].
    apply contribution_of_Ok in Hc'
      as (payload & Hpay & _ & _ & _ & _ & _ & Hfields).
    rewrite Hfields in Hh'.
    apply list_elem_of_fmap in Hh' as ([name v] & -> & Hin).
    exists name, p, payload. repeat split; [done..|].
    apply dict_has_fst. by apply (list_elem_of_fmap_2 fst) in Hin.
  - intros (name & p & payload & -> & Hp & Hpay & Hhas).
    right. exists (HStr name). split; [done|].
    destruct (contribution_of p) as [c|e] eqn:Hc.
    + destruct (proj2 (elem_of_contributions
                         (λ c, HStr name ∈ c_fields c) _ _ Hcs))
        as (c' & ? & ?); [|by exists c'].
      exists p, c. split; [done|]. split; [done|].
      apply contribution_of_Ok in Hc
        as (payload' & Hpay' & _ & _ & _ & _ & _ & ->).
      assert (payload' = payload) as -> by congruence.
      apply dict_has_fst, list_elem_of_fmap in Hhas as ([name' v] & -> & Hin).
      by apply (list_elem_of_fmap_2 (λ kv, HStr kv.1)) in Hin.
    + apply contributions_Forall2 in Hcs.
      apply list_elem_of_lookup in Hp as [i Hi].
      destruct (Forall2_lookup_l _ _ _ _ _ Hcs Hi) as (c & _ & Hc').
      congruence.
Qed.

Lemma field_catalog_complete_witness :
  NoDup (keys (payload_fields two_documents_aggregate))
  ∧ ∀ k, k ∈ keys (payload_fields two_documents_aggregate) ↔
         ∃ name p payload,
           k = KStr name ∧ p ∈ load_points two_documents
           ∧ get_payload p = Ok payload ∧ dict_has name payload = true.
Proof. apply field_catalog_complete. reflexivity. Defined.

(** ** Chains that are objects *)

(** The size a chain contributes: the length of its [participants]. *)
Definition chain_size (chain : json) : option nat :=
  match chain with
  | JObj kvs =>
      match dict_get "participants" kvs with
      | Some (JList l) => Some (length l)
      | _ => None
      end
  | _ => None
  end.

(** The score a chain contributes: its [convergenceScore], as it is. *)
Definition chain_score (chain : json) : option json :=
  match chain with
  | JObj kvs => dict_get "convergenceScore" kvs
  | _ => None
  end.

(** A chain as the data model has it: an object whose [participants], when
    present, is a list. *)
Definition chain_object (chain : json) : Prop :=
  ∃ kvs, chain = JObj kvs
         ∧ ∀ p, dict_get "participants" kvs = Some p → ∃ l, p = JList l.

Lemma record_chain_object acc chain :
  chain_object chain →
  record_chain acc chain
  = Ok (acc.1 ++ option_list (chain_size chain),
        acc.2 ++ option_list (chain_score chain)).
Proof.
  intros (kvs & -> & Hp). unfold record_chain, chain_size, chain_score.
  simpl. unfold dict_has.
  destruct (dict_get "participants" kvs) as [p|]; simpl.
  - destruct (Hp p eq_refl) as [l ->]. simpl.
    destruct (dict_get "convergenceScore" kvs); simpl; [done|].
    by rewrite app_nil_r.
  - rewrite app_nil_r.
    destruct (dict_get "convergenceScore" kvs); simpl; [done|].
    by rewrite app_nil_r.
Qed.

(** X6.  A [convergenceChains] value that is not a list is ignored.  For a
    list of chain objects the loop records, in the order of the list, the
    number of participants of each chain that has [participants] and the
    [convergenceScore] of each chain that has one; a chain with neither is
    skipped. *)
Theorem chains_recorded_in_order (payload : dict) (acc : list nat * list json) :
  (∀ v, dict_get "convergenceChains" payload = Some v → (∀ l, v ≠ JList l) →
        extract_chains payload acc = Ok acc)
  ∧ (dict_get "convergenceChains" payload = None →
     extract_chains payload acc = Ok acc)
  ∧ (∀ chains, dict_get "convergenceChains" payload = Some (JList chains) →
       Forall chain_object chains →
       extract_chains payload acc
       = Ok (acc.1 ++ omap chain_size chains,
             acc.2 ++ omap chain_score chains)).
Proof.
  unfold extract_chains. repeat split.
  - intros v -> Hv. destruct v; try done. by destruct (Hv l).
  - by intros ->.
  - intros chains -> Hchains. revert acc.
    induction Hchains as [|chain chains Hc _ IH]; intros acc; simpl.
    { rewrite !app_nil_r. by destruct acc. }
    rewrite (record_chain_object _ _ Hc). simpl. rewrite IH. simpl.
    rewrite <-!(assoc_L (++)).
    by destruct (chain_size chain), (chain_score chain).
Qed.

Lemma chains_recorded_in_order_witness :
  extract_chains
    [("convergenceChains",
      JList [JObj [("participants", JList [JStr "a"; JStr "b"]);
                   ("convergenceScore", JInt 3)];
             JObj [("convergenceScore", JInt 9)]])]
    ([5], [])
  = Ok ([5] ++ omap chain_size
                 [JObj [("participants", JList [JStr "a"; JStr "b"]);
                        ("convergenceScore", JInt 3)];
                  JObj [("convergenceScore", JInt 9)]],
        [] ++ omap chain_score
                [JObj [("participants", JList [JStr "a"; JStr "b"]);
                       ("convergenceScore", JInt 3)];
                 JObj [("convergenceScore", JInt 9)]]).
Proof.
  apply (proj2 (proj2 (chains_recorded_in_order _ ([5], [])))).
  - reflexivity.
  - repeat constructor.
    + eexists. split; [reflexivity|]. intros p [= <-]. by eexists.
    + eexists. split; [reflexivity|]. intros p [=].
Defined.

(** * Further properties of the statistics *)

Lemma Qc_le_total x y : (x ≤ y)%Qc ∨ (y ≤ x)%Qc.
Proof. destruct (Qclt_le_dec x y); auto using Qclt_le_weak. Qed.

Lemma Qc_of_nat_S n : Qc_of_nat (S n) = (Qc_of_nat n + Qc_of_Z 1)%Qc.
Proof.
  apply Qc_is_canon. unfold Qc_of_nat, Qc_of_Z, Qcplus, Q2Qc. cbn [this].
  rewrite Qred_correct, <-inject_Z_plus, Nat2Z.inj_succ. reflexivity.
Qed.

Lemma Qc_of_Z_0 : Qc_of_Z 0 = 0%Qc.
Proof. by apply Qc_is_canon. Qed.

Lemma Qc_of_Z_1 : Qc_of_Z 1 = 1%Qc.
Proof. by apply Qc_is_canon. Qed.

(** A sum of numbers between [lo] and [hi] lies between the multiples. *)
Lemma total_bounds lo hi data :
  Forall (λ x, lo ≤ x ∧ x ≤ hi)%Qc data →
  (lo * Qc_of_nat (length data) ≤ total data)%Qc
  ∧ (total data ≤ hi * Qc_of_nat (length data))%Qc.
Proof.
  induction 1 as [|x data [Hlo Hhi] _ [IHlo IHhi]]; simpl.
  { change (Qc_of_nat 0) with (Qc_of_Z 0). rewrite Qc_of_Z_0, !Qcmult_0_r.
    split; apply Qcle_refl. }
  rewrite Qc_of_nat_S, Qc_of_Z_1, !Qcmult_plus_distr_r, !Qcmult_1_r.
  rewrite !(Qcplus_comm (_ * Qc_of_nat (length data))).
  split; by apply Qcplus_le_compat.
Qed.

Lemma Qc_div_bounds lo hi t n :
  (Qc_of_Z 0 < n)%Qc → (lo * n ≤ t)%Qc → (t ≤ hi * n)%Qc →
  (lo ≤ t / n)%Qc ∧ (t / n ≤ hi)%Qc.
Proof.
  rewrite Qc_of_Z_0. intros Hn Hlo Hhi.
  assert (n ≠ 0%Qc) as Hn0.
  { intros ->. by apply (Qclt_not_eq _ _ Hn). }
  split; apply (Qcmult_lt_0_le_reg_r _ _ n Hn);
    by rewrite (Qcmult_comm (t / n)), Qcmult_div_r.
Qed.

Lemma Qc_of_Z_2 : Qc_of_Z 2 = (1 + 1)%Qc.
Proof. by apply Qc_is_canon. Qed.

Lemma Qc_halve_bounds lo hi x y :
  (lo ≤ x)%Qc → (x ≤ hi)%Qc → (lo ≤ y)%Qc → (y ≤ hi)%Qc →
  (lo ≤ (x + y) / Qc_of_Z 2)%Qc ∧ ((x + y) / Qc_of_Z 2 ≤ hi)%Qc.
Proof.
  intros. apply Qc_div_bounds.
  - rewrite Qc_of_Z_0. reflexivity.
  - rewrite Qc_of_Z_2, Qcmult_plus_distr_r, Qcmult_1_r.
    by apply Qcplus_le_compat.
  - rewrite Qc_of_Z_2, Qcmult_plus_distr_r, Qcmult_1_r.
    by apply Qcplus_le_compat.
Qed.

Lemma Qc_square_nonneg x : (Qc_of_Z 0 ≤ x * x)%Qc.
Proof.
  unfold Qcle, Qcmult, Q2Qc, Qc_of_Z. cbn [this]. rewrite Qred_correct.
  generalize (this x). intros q. unfold inject_Z. nra.
Qed.

Lemma elem_of_nth (s : list Qc) i d : i < length s → nth i s d ∈ s.
Proof. intros H. apply list_elem_of_In. by apply nth_In. Qed.

Lemma data_statistics (data : list Qc) :
  data ≠ [] →
  ∃ lo hi avg med,
    py_min data = Ok lo ∧ py_max data = Ok hi
    ∧ mean data = Ok avg ∧ median data = Ok med
    ∧ lo ∈ data ∧ hi ∈ data
    ∧ (lo ≤ avg)%Qc ∧ (avg ≤ hi)%Qc ∧ (lo ≤ med)%Qc ∧ (med ≤ hi)%Qc
    ∧ (2 ≤ length data →
       ∃ var, variance data = Ok var ∧ (Qc_of_Z 0 ≤ var)%Qc)
    ∧ (length data = 1 → variance data = Raise StatisticsError).
Proof.
  destruct data as [|x data]; [done|]. intros _.
  destruct (foldl_Qc_min x data) as [Hlo_in Hlo].
  destruct (foldl_Qc_max x data) as [Hhi_in Hhi].
  set (lo := foldl Qc_min x data) in *. set (hi := foldl Qc_max x data) in *.
  set (l := x :: data) in *.
  assert (Forall (λ y, lo ≤ y ∧ y ≤ hi)%Qc l) as Hall.
  { apply Forall_forall. auto. }
  assert (Qc_of_Z 0 < Qc_of_nat (length l))%Qc as Hlen.
  { apply Qc_of_nat_pos. simpl. lia. }
  destruct (total_bounds _ _ _ Hall) as [Ht1 Ht2].
  destruct (Qc_div_bounds _ _ _ _ Hlen Ht1 Ht2) as [Ha1 Ha2].
  assert (∃ med, median l = Ok med ∧ (lo ≤ med)%Qc ∧ (med ≤ hi)%Qc)
    as (med & Hmed & Hm1 & Hm2).
  { unfold median.
    pose proof (sorted_with_Permutation
                  (λ y x, bool_decide (y < x)%Qc) l) as Hperm.
    fold (sorted_nums l) in Hperm.
    assert (length (sorted_nums l) = S (length data)) as Hn
      by by rewrite Hperm.
    assert (∀ i, i < length (sorted_nums l) →
              (lo ≤ nth i (sorted_nums l) (Qc_of_Z 0))%Qc
              ∧ (nth i (sorted_nums l) (Qc_of_Z 0) ≤ hi)%Qc) as Hnth.
    { intros i Hi. apply (elem_of_nth _ _ (Qc_of_Z 0)) in Hi.
      apply (proj1 (elem_of_sorted_with _ _ _)) in Hi. auto. }
    rewrite Hn in *. cbn [Nat.eqb].
    assert (S (length data) / 2 < S (length data))
      by (apply Nat.div_lt; lia).
    destruct (Nat.odd (S (length data))).
    - eexists. split; [done|]. by apply Hnth.
    - eexists. split; [done|].
      apply Qc_halve_bounds; apply Hnth; lia. }
  exists lo, hi, (total l / Qc_of_nat (length l))%Qc, med.
  repeat split; try done.
  - intros Hlong. unfold variance.
    destruct (length l <? 2) eqn:H2; [apply Nat.ltb_lt in H2; lia|].
    eexists. split; [done|].
    set (m := (total l / Qc_of_nat (length l))%Qc).
    set (T := total _). set (N := Qc_of_nat (length l - 1)).
    assert (Qc_of_Z 0 < N)%Qc as HN by (apply Qc_of_nat_pos; lia).
    apply (Qc_div_bounds (Qc_of_Z 0) (T / N) T N HN).
    + rewrite Qc_of_Z_0, Qcmult_0_l, <-Qc_of_Z_0. subst T.
      clearbody m. clear. induction l as [|y l IH]; simpl.
      { apply Qcle_refl. }
      rewrite <-(Qcplus_0_l (Qc_of_Z 0)), <-Qc_of_Z_0.
      apply Qcplus_le_compat; [apply Qc_square_nonneg|done].
    + rewrite (Qcmult_comm (T / N)), Qcmult_div_r; [apply Qcle_refl|].
      intros Heq. rewrite Heq, Qc_of_Z_0 in HN. by apply Qclt_not_eq in HN.
  - intros Hone. unfold variance. by rewrite Hone.
Qed.



(** * Further properties of the report *)

(** A run that ends without an exception. *)
Definition succeeds {A} (m : io A) : Prop := raised m = None.

Lemma succeeds_Ok {A} (m : io A) : succeeds m ↔ ∃ a, m.2 = Ok a.
Proof.
  unfold succeeds, raised. destruct m as [out [a|e]]; simpl; naive_solver.
Qed.

Lemma succeeds_bind {A B} (m : io A) (f : A → io B) :
  succeeds (m ≫= f) ↔ ∃ a, m.2 = Ok a ∧ succeeds (f a).
Proof.
  destruct m as [out [a|e]].
  - rewrite io_bind_Ok. unfold succeeds, raised. simpl. naive_solver.
  - rewrite io_bind_Raise. unfold succeeds, raised. simpl. naive_solver.
Qed.

Lemma succeeds_seq (m k : io unit) :
  succeeds (m;; k) ↔ succeeds m ∧ succeeds k.
Proof.
  rewrite succeeds_bind, (succeeds_Ok m).
  split; [naive_solver|]. intros [[[] ?] ?]. by exists ().
Qed.

Lemma succeeds_print line : succeeds (print line).
Proof. done. Qed.

Lemma succeeds_note e : succeeds (note e).
Proof. done. Qed.


Lemma succeeds_lift {A} (r : result A) : succeeds (lift r) ↔ ∃ a, r = Ok a.
Proof. by rewrite succeeds_Ok. Qed.

Lemma succeeds_print_seq line (k : io unit) :
  succeeds (print line;; k) ↔ succeeds k.
Proof. rewrite succeeds_seq. pose proof (succeeds_print line). tauto. Qed.

Lemma succeeds_for_io {A} (body : A → io unit) (l : list A) :
  succeeds (for_io body l) ↔ Forall (λ x, succeeds (body x)) l.
Proof.
  induction l as [|x l IH]; simpl.
  { split; [constructor|done]. }
  by rewrite succeeds_seq, Forall_cons, IH.
Qed.

Lemma mean_nonempty data : data ≠ [] → ∃ avg, mean data = Ok avg.
Proof. destruct data; [done|]. by eexists. Qed.

Lemma median_nonempty data : data ≠ [] → ∃ med, median data = Ok med.
Proof.
  intros (_ & _ & _ & med & _ & _ & _ & H & _)%data_statistics. eauto.
Qed.

Lemma succeeds_statistics_mean data (k : Qc → io unit) :
  data ≠ [] → (∀ avg, succeeds (k avg)) → succeeds (statistics_mean data ≫= k).
Proof.
  intros [avg Havg]%mean_nonempty Hk. unfold statistics_mean.
  rewrite succeeds_bind. exists avg. split; [|done].
  unfold note, lift. by rewrite io_bind_Ok.
Qed.

Lemma succeeds_statistics_median data (k : Qc → io unit) :
  data ≠ [] → (∀ med, succeeds (k med)) →
  succeeds (statistics_median data ≫= k).
Proof.
  intros [med Hmed]%median_nonempty Hk. unfold statistics_median.
  rewrite succeeds_bind. exists med. split; [|done].
  unfold note, lift. by rewrite io_bind_Ok.
Qed.

Lemma chain_section_succeeds_aux (fmt_1f : Qc → string) (chains : list nat) :
  succeeds (chain_section fmt_1f chains).
Proof.
  unfold chain_section. apply succeeds_print_seq.
  apply succeeds_seq. split; [|apply succeeds_print].
  destruct chains as [|n chains]; [apply succeeds_print|].
  apply succeeds_print_seq.
  apply succeeds_statistics_mean; [done|]. intros avg.
  apply succeeds_print_seq.
  apply succeeds_statistics_median; [done|]. intros med.
  apply succeeds_print_seq.
  apply succeeds_seq. split; [apply succeeds_note|].
  apply succeeds_bind. eexists. split; [done|].
  apply succeeds_print_seq.
  apply succeeds_seq. split; [apply succeeds_note|].
  apply succeeds_bind. eexists. split; [done|].
  apply succeeds_print_seq.
  apply succeeds_seq. split; [apply succeeds_note|].
  apply succeeds_print_seq.
  apply succeeds_for_io, Forall_forall. intros item _. apply succeeds_print.
Qed.

(** X8.  The chain section never raises: on an empty list it prints that
    no data was found, and on any other list every statistic it evaluates
    is defined. *)
Theorem chain_section_succeeds (fmt_1f : Qc → string) (chains : list nat) :
  succeeds (chain_section fmt_1f chains).
Proof. apply chain_section_succeeds_aux. Qed.


Lemma succeeds_range_line fmt_2f range : succeeds (range_line fmt_2f range).
Proof.
  unfold range_line. destruct (range.2) as [|x b] eqn:H; [done|].
  apply succeeds_statistics_mean; [done|]. intros avg. apply succeeds_print.
Qed.








(** ** The order of a distribution *)

Lemma filter_insert_by_count (c : nat) x (l : counter) :
  filter (λ item, item.2 = c) (insert_sorted (λ y x, x.2 <? y.2) x l)
  = filter (λ item, item.2 = c) (x :: l).
Proof.
  induction l as [|y l IH]; simpl; [done|].
  destruct (x.2 <? y.2) eqn:Hlt; [|done].
  apply Nat.ltb_lt in Hlt.
  rewrite (filter_cons _ y), IH, !(filter_cons _ x), (filter_cons _ y).
  repeat case_decide; try done; lia.
Qed.

Lemma Sorted_weaken {A} (R R' : relation A) l :
  (∀ x y, R x y → R' x y) → Sorted R l → Sorted R' l.
Proof.
  intros HR. induction 1 as [|x l _ IH Hx]; constructor; [done|].
  destruct Hx; constructor. by apply HR.
Qed.

(** X10.  A distribution is printed with every entry of the counter once,
    the larger count first, and entries of equal count in the order in
    which their keys were first seen. *)
Theorem distribution_order (d : counter) :
  sorted_by_count d ≡ₚ d
  ∧ Sorted (λ x y, y.2 ≤ x.2) (sorted_by_count d)
  ∧ ∀ c, filter (λ item, item.2 = c) (sorted_by_count d)
         = filter (λ item, item.2 = c) d.
Proof.
  split; [apply sorted_with_Permutation|]. split.
  - eapply Sorted_weaken; [|apply sorted_with_Sorted].
    + intros x y. unfold in_order. by rewrite Nat.ltb_ge.
    + intros x y. rewrite Nat.ltb_lt, Nat.ltb_ge. lia.
  - intros c. unfold sorted_by_count, sorted_with.
    induction d as [|x d IH]; [done|]. cbn [foldr].
    rewrite filter_insert_by_count, !(filter_cons _ x).
    destruct (decide (x.2 = c)); [f_equal|]; exact IH.
Qed.

(** ** The size distribution *)

Fixpoint tally_total (c : list (nat * nat)) : nat :=
  match c with
  | [] => 0
  | (_, m) :: c' => m + tally_total c'
  end.

Lemma tally_total_tally n c : tally_total (tally n c) = S (tally_total c).
Proof.
  induction c as [|[k m] c IH]; simpl; [done|].
  destruct (k =? n); simpl; [done|]. rewrite IH. lia.
Qed.

Lemma tally_total_Counter l : tally_total (Counter l) = length l.
Proof.
  induction l as [|n l IH] using rev_ind; [done|].
  rewrite Counter_snoc, tally_total_tally, IH, length_app. simpl. lia.
Qed.

Lemma tally_total_Permutation c c' :
  c ≡ₚ c' → tally_total c = tally_total c'.
Proof.
  induction 1 as [|[] ???|[] [] ?|]; simpl; lia.
Qed.

Lemma pair_ltb_asym x y : pair_ltb x y = true → pair_ltb y x = false.
Proof.
  unfold pair_ltb.
  rewrite orb_true_iff, andb_true_iff, orb_false_iff, andb_false_iff,
    !Nat.ltb_lt, !Nat.ltb_ge, Nat.eqb_eq, Nat.eqb_neq. lia.
Qed.

Lemma sorted_items_strict (l : list (nat * nat)) :
  NoDup l.*1 → Sorted (in_order pair_ltb) l → Sorted (λ x y, x.1 < y.1) l.
Proof.
  intros Hnd Hsorted. apply Sorted_StronglySorted in Hsorted.
  2: { intros x y z. unfold in_order. rewrite !pair_ltb_false. lia. }
  apply StronglySorted_Sorted.
  induction Hsorted as [|x l Hl IH Hx]; [constructor|].
  simpl in Hnd. apply NoDup_cons in Hnd as [Hx' Hnd].
  constructor; [by apply IH|].
  rewrite Forall_forall in Hx. apply Forall_forall. intros y Hy.
  specialize (Hx y Hy). unfold in_order in Hx.
  apply pair_ltb_false in Hx.
  assert (x.1 ≠ y.1); [|lia].
  intros Heq. apply Hx'. rewrite Heq. by apply list_elem_of_fmap_2.
Qed.

(** X11.  The size distribution lists each chain size that occurs once, in
    strictly increasing order, with the number of chains of that size; the
    numbers add up to the number of chains. *)
Theorem size_distribution_correct (chains : list nat) :
  Sorted (λ x y, x.1 < y.1) (sorted_items (Counter chains))
  ∧ (∀ size count,
       (size, count) ∈ sorted_items (Counter chains) ↔
       0 < count ∧ count = length (filter (λ n, n = size) chains))
  ∧ tally_total (sorted_items (Counter chains)) = length chains.
Proof.
  destruct (Counter_spec chains) as (Hnd & Hpos & Hcount).
  pose proof (sorted_with_Permutation pair_ltb (Counter chains)) as Hperm.
  fold (sorted_items (Counter chains)) in Hperm.
  split; [|split].
  - apply sorted_items_strict; [by rewrite Hperm|].
    apply sorted_with_Sorted, pair_ltb_asym.
  - intros size count. rewrite Hperm, elem_of_tally_of by done.
    rewrite Hcount. naive_solver.
  - by rewrite (tally_total_Permutation _ _ Hperm), tally_total_Counter.
Qed.

(** ** The score ranges, counted *)

Lemma length_filter_cons {A} (P : A → Prop) `{∀ x, Decision (P x)} x l :
  length (filter P (x :: l))
  = (if decide (P x) then 1 else 0) + length (filter P l).
Proof. rewrite filter_cons. by case_decide. Qed.

(** X12.  The counts printed for the five ranges add up to the number of
    scores that are not negative: the scores left out of the distribution
    are exactly the negative ones. *)
Theorem range_counts_add_up (scores : list Qc) :
  sum_list ((λ range, length range.2) <$> score_ranges scores)
  = length (filter (λ s, (Qc_of_Z 0 ≤ s)%Qc) scores).
Proof.
  unfold score_ranges. simpl.
  induction scores as [|s scores IH]; [done|].
  rewrite !length_filter_cons.
  repeat case_decide; try lia; exfalso; qc_order.
Qed.

(** ** The sample point *)

(** X13.  Without points, and for a first point that is an empty object,
    the sample section prints its title only.  A first point without [id]
    ends the run there with [KeyError].  The sample file is printed for
    [sourceFile] only: a payload that has the file under [file] gets no
    sample file line. *)
Theorem sample_section_edges (py_repr : json → string) :
  sample_section py_repr None
  = ([Print "## Sample Point Analysis"; Print EmptyString], Ok ())
  ∧ sample_section py_repr (Some (JObj []))
    = ([Print "## Sample Point Analysis"; Print EmptyString], Ok ())
  ∧ (∀ kvs, kvs ≠ [] → dict_get "id" kvs = None →
       sample_section py_repr (Some (JObj kvs))
       = ([Print "## Sample Point Analysis"], Raise KeyError))
  ∧ (∀ ident payload,
       dict_get "sourceFile" payload = None →
       dict_get "convergenceChains" payload = None →
       sample_section py_repr
         (Some (JObj [("id", ident); ("payload", JObj payload)]))
       = ([Print "## Sample Point Analysis";
           Print ("- Sample Point ID: " +:+ py_str py_repr ident);
           Print ("- Sample Payload Keys: "
                  +:+ py_repr (JList ((λ kv, JStr kv.1) <$> payload)));
           Print EmptyString], Ok ())).
Proof.
  repeat split.
  - intros kvs Hne Hid. unfold sample_section.
    destruct kvs as [|kv kvs]; [done|]. cbn [py_truthy py_getitem].
    rewrite Hid. by rewrite print_bind.
  - intros ident payload Hfile Hchains. unfold sample_section, sample_chain.
    simpl. rewrite Hfile, Hchains. reflexivity.
Qed.

Lemma sample_section_edges_witness :
  sample_section (λ _, "?") (Some (JObj [("payload", JObj [])]))
  = ([Print "## Sample Point Analysis"], Raise KeyError).
Proof.
  apply (proj1 (proj2 (proj2 (sample_section_edges (λ _, "?"))))); done.
Defined.

(** ** The run as a whole *)








Lemma not_succeeds_percentage_0 count (k : Qc → io unit) :
  ¬ succeeds (percentage count 0 ≫= k).
Proof. done. Qed.

Section Run.

Variable py_repr : json → string.
Variable fmt_1f fmt_2f fmt_sqrt_2f : Qc → string.
Variable set_iter : pyset → list hashable.
Hypothesis set_iter_perm : ∀ s, set_iter s ≡ₚ s.











End Run.



(** ** The list of files *)

Lemma for_io_print {A} (text : A → string) (l : list A) :
  for_io (λ x, print (text x)) l = (Print ∘ text <$> l, Ok ()).
Proof.
  induction l as [|x l IH]; [done|].
  cbn [for_io]. by rewrite IH, print_bind.
Qed.

Lemma sorted_keys_strict (l : list hashable) :
  NoDup (keys l) → Sorted (in_order key_ltb) l →
  Sorted (λ x y, key_ltb x y = true) l.
Proof.
  intros Hnd Hsorted.
  apply Sorted_StronglySorted in Hsorted; [|exact key_in_order_trans].
  apply StronglySorted_Sorted.
  induction Hsorted as [|x l Hl IH Hx]; [constructor|].
  simpl in Hnd. apply NoDup_cons in Hnd as [Hx' Hnd].
  constructor; [by apply IH|].
  rewrite Forall_forall in Hx. apply Forall_forall. intros y Hy.
  specialize (Hx y Hy). unfold in_order in Hx.
  apply key_ltb_false in Hx as [Heq|?]; [|done].
  destruct Hx'. rewrite <-Heq. by apply list_elem_of_fmap_2.
Qed.

Section Files.

Variable py_repr : json → string.
Variable set_iter : pyset → list hashable.

(** The line of the listing for the file at position [i], from 0. *)
Definition file_line (i : nat) (f : hashable) : string :=
  fmt_2d (S i) +:+ ". " +:+ py_str py_repr (to_json f).

Lemma files_section_sorted a file_list :
  py_sorted (set_iter (files_unique a)) = Ok file_list →
  stdout (files_section py_repr set_iter a)
  = ("## Unique Files Mapped (" +:+ pretty (length (files_unique a))
     +:+ " total):")
    :: imap file_line (take 25 file_list)
    ++ (if 25 <? length file_list
        then ["... and " +:+ pretty (length file_list - 25) +:+ " more files"]
        else [])
    ++ [EmptyString].
Proof.
  intros Hs. unfold files_section. rewrite stdout_print_bind. f_equal.
  rewrite Hs. unfold lift. rewrite io_bind_Ok. unfold stdout. cbn [fst].
  rewrite app_nil_l.
  rewrite (for_io_print (λ f, fmt_2d f.1 +:+ ". " +:+ py_str py_repr (to_json f.2))).
  rewrite io_bind_Ok. cbn [fst]. rewrite omap_app. f_equal.
  - generalize (take 25 file_list). intros l. unfold file_line.
    change (λ i f, fmt_2d (S i) +:+ ". " +:+ py_str py_repr (to_json f))
      with (λ i f, (λ g : nat → nat, fmt_2d (g i) +:+ ". "
                                     +:+ py_str py_repr (to_json f)) S).
    generalize S. induction l as [|x l IH]; intros g; [done|].
    simpl. f_equal. apply (IH (g ∘ S)).
  - destruct (25 <? length file_list); reflexivity.
Qed.

(** X15.  When the file identities can be sorted, the listing shows them
    in strictly increasing order, each once, numbered from 1: all of them
    when there are at most 25, and otherwise the first 25 followed by a
    line with the number of files left out. *)
Theorem file_listing_sorted_and_capped (a : aggregate) :
  (∀ s, set_iter s ≡ₚ s) →
  NoDup (keys (files_unique a)) →
  length (files_unique a) ≤ 1 ∨ uniform (files_unique a) →
  ∃ file_list,
    py_sorted (set_iter (files_unique a)) = Ok file_list
    ∧ file_list ≡ₚ files_unique a
    ∧ Sorted (λ x y, key_ltb x y = true) file_list
    ∧ stdout (files_section py_repr set_iter a)
      = ("## Unique Files Mapped (" +:+ pretty (length (files_unique a))
         +:+ " total):")
        :: imap file_line (take 25 file_list)
        ++ (if 25 <? length file_list
            then ["... and " +:+ pretty (length file_list - 25)
                  +:+ " more files"]
            else [])
        ++ [EmptyString]
    ∧ length (imap file_line (take 25 file_list))
      = length (files_unique a) `min` 25.
Proof.
  intros Hperm Hnd Hfit.
  pose proof (Hperm (files_unique a)) as Hp.
  exists (sorted_with key_ltb (set_iter (files_unique a))).
  assert (py_sorted (set_iter (files_unique a))
          = Ok (sorted_with key_ltb (set_iter (files_unique a)))) as Hs.
  { destruct Hfit as [Hshort|Hu].
    - rewrite <-(Permutation_length Hp) in Hshort.
      by destruct (set_iter (files_unique a)) as [|x [|y l]];
        simpl in *; [..|lia].
    - apply py_sorted_uniform. eapply uniform_Permutation; [|done].
      by symmetry. }
  split; [done|]. split; [by rewrite sorted_with_Permutation|].
  split; [|split].
  - apply sorted_keys_strict.
    + unfold keys. by rewrite sorted_with_Permutation, Hp.
    + apply sorted_with_Sorted, key_ltb_asym.
  - by apply files_section_sorted.
  - rewrite length_imap, length_take, sorted_with_length.
    rewrite (Permutation_length Hp). lia.
Qed.

End Files.

Lemma file_listing_sorted_and_capped_witness :
  ∃ file_list,
    py_sorted (id (files_unique two_documents_aggregate)) = Ok file_list
    ∧ file_list ≡ₚ files_unique two_documents_aggregate
    ∧ Sorted (λ x y, key_ltb x y = true) file_list
    ∧ stdout (files_section (λ _, "?") id two_documents_aggregate)
      = ("## Unique Files Mapped ("
         +:+ pretty (length (files_unique two_documents_aggregate))
         +:+ " total):")
        :: imap (file_line (λ _, "?")) (take 25 file_list)
        ++ (if 25 <? length file_list
            then ["... and " +:+ pretty (length file_list - 25)
                  +:+ " more files"]
            else [])
        ++ [EmptyString]
    ∧ length (imap (file_line (λ _, "?")) (take 25 file_list))
      = length (files_unique two_documents_aggregate) `min` 25.
Proof.
  apply file_listing_sorted_and_capped.
  - intros s. reflexivity.
  - vm_compute. repeat constructor; by intros ?%elem_of_nil
      || (intros [=]%list_elem_of_singleton).
  - right. exists 2. split; [done|]. by repeat constructor.
Defined.

(** ** The category distribution *)

Lemma contributions_categories points cs :
  contributions points = Ok cs →
  cs ≫= c_categories = points ≫= point_categories.
Proof.
  intros H%contributions_Forall2.
  induction H as [|p c points cs Hc _ IH]; [done|].
  rewrite !bind_cons, IH. unfold point_categories at 2. by rewrite Hc.
Qed.

(** X16.  After the loop the category distribution has one entry for each
    category that some point names, and the count of an entry is the
    number of times the points name that category, a list naming it once
    for each of its occurrences. *)
Theorem category_distribution_correct (points : list json) (a : aggregate) :
  aggregate_points points = Ok a →
  NoDup (keys (categories_dist a).*1)
  ∧ (∀ k, k ∈ keys (categories_dist a).*1
          ↔ k ∈ keys (points ≫= point_categories))
  ∧ (∀ h c, (h, c) ∈ categories_dist a →
            0 < c ∧ c = occurrences (key_of h) (points ≫= point_categories)).
Proof.
  intros (cs & Hcs & ->)%aggregate_points_Ok. simpl.
  rewrite (contributions_categories _ _ Hcs).
  set (hs := points ≫= point_categories).
  assert (counter_wf (incr_all [] hs)) as Hwf.
  { apply incr_all_wf. split; constructor. }
  assert (∀ k, count_of k (incr_all [] hs) = occurrences k hs) as Hcount.
  { intros k. by rewrite count_of_incr_all. }
  split; [apply Hwf|]. split.
  - intros k. rewrite (elem_of_counter_keys _ _ Hwf), Hcount.
    unfold occurrences, keys. rewrite list_elem_of_fmap. split.
    + intros Hpos. destruct (filter _ hs) as [|h l] eqn:Hf;
        [simpl in Hpos; lia|].
      assert (h ∈ filter (λ h, key_of h = k) hs) as Hin
        by (rewrite Hf; left).
      apply list_elem_of_filter in Hin as [<- Hin]. by exists h.
    + intros (h & -> & Hin).
      assert (h ∈ filter (λ h', key_of h' = key_of h) hs) as Hin'
        by by apply list_elem_of_filter.
      destruct (filter _ hs); [by apply elem_of_nil in Hin'|simpl; lia].
  - intros h c Hin. split.
    + destruct Hwf as [_ Hpos]. rewrite Forall_forall in Hpos.
      apply (Hpos _ Hin).
    + by rewrite <-(elem_of_counter _ _ _ Hwf Hin), Hcount.
Qed.

Lemma category_distribution_correct_witness :
  NoDup (keys (categories_dist two_documents_aggregate).*1)
  ∧ (∀ k, k ∈ keys (categories_dist two_documents_aggregate).*1
          ↔ k ∈ keys (load_points two_documents ≫= point_categories))
  ∧ (∀ h c, (h, c) ∈ categories_dist two_documents_aggregate →
            0 < c
            ∧ c = occurrences (key_of h)
                    (load_points two_documents ≫= point_categories)).
Proof. apply category_distribution_correct. reflexivity. Defined.
